(** * SolarDesktop: the numeric core of the n-body simulator

    A shallow embedding of the Python package [solar] (vector algebra,
    explicit Runge-Kutta integrator, n-body force law, Hamiltonian and the
    simulation driver) together with the properties stated about it.

    Numbers.  The source computes with [numbers.Real] values (Python and
    NumPy floats).  They are embedded as the real numbers [R]: rounding is
    not modelled, every other aspect of the control flow is.  Python [int]
    values are embedded as [Z], sizes and loop counters as [nat]. *)

From Stdlib Require Import String.
From Stdlib Require Import Reals Lra Lia List ZArith Bool.
Import ListNotations.

Local Open Scope R_scope.

(** ** Exceptions and fallible computations *)

Inductive exn : Type :=
| ValueError
| IndexError
| TypeError
| AssertionError
| KeyError
| BodyError.

Inductive result (A : Type) : Type :=
| Ok (a : A)
| Raise (e : exn).

Arguments Ok {A} a.
Arguments Raise {A} e.

Definition bind {A B : Type} (m : result A) (k : A -> result B) : result B :=
  match m with
  | Ok a => k a
  | Raise e => Raise e
  end.

Notation "x <- m ;; k" := (bind m (fun x => k))
  (at level 61, m at next level, right associativity).

Notation "' pat <- m ;; k" :=
  (bind m (fun x => match x with pat => k end))
  (at level 61, pat pattern, m at next level, right associativity).

Fixpoint mapM {A B : Type} (f : A -> result B) (l : list A) : result (list B) :=
  match l with
  | [] => Ok []
  | x :: xs => y <- f x ;; ys <- mapM f xs ;; Ok (y :: ys)
  end.

Definition raises {A : Type} (m : result A) : Prop :=
  exists e, m = Raise e.

(** ** Python built-ins used by the package *)

Module Py.

(** [enumerate(l)] *)
Definition enumerate {A : Type} (l : list A) : list (nat * A) :=
  combine (seq 0 (length l)) l.

(** [range(start, stop, step)] for a positive [step]. *)
Definition range (start stop step : nat) : list nat :=
  map (fun q => (start + step * q)%nat)
      (seq 0 ((stop - start + (step - 1)) / step)).

(** [sum(l)]: a left fold starting from [0]. *)
Definition sum (l : list R) : R := fold_left Rplus l 0.

(** [t[i]] on a tuple or list: negative indices count from the end, and
    an index outside [-len, len) is an [IndexError]. *)
Definition index {A : Type} (l : list A) (i : Z) : result A :=
  let len := Z.of_nat (length l) in
  let j := (if i <? 0 then i + len else i)%Z in
  if ((j <? 0) || (len <=? j))%Z then Raise IndexError
  else match nth_error l (Z.to_nat j) with
       | Some x => Ok x
       | None => Raise IndexError
       end.

(** Normalisation of one bound of a slice of step 1 against a length. *)
Definition clamp (len : Z) (dflt : Z) (bound : option Z) : Z :=
  match bound with
  | None => dflt
  | Some x => if (x <? 0)%Z then Z.max (x + len) 0 else Z.min x len
  end.

(** [t[start:stop]] on a tuple or list: never raises. *)
Definition slice {A : Type} (l : list A) (start stop : option Z) : list A :=
  let len := Z.of_nat (length l) in
  let s := clamp len 0%Z start in
  let e := clamp len len stop in
  firstn (Z.to_nat (e - s)) (skipn (Z.to_nat s) l).

(** [int(x)] on a real: truncation towards zero. *)
Definition int (x : R) : Z :=
  if Rle_dec 0 x then Int_part x else (- Int_part (- x))%Z.

End Py.

(** ** solar/math/tools/vector.py *)

Module Vector.

(** A [Vector] holds the tuple [_vect]; [__len] is its length. *)
Notation t := (list R) (only parsing).

Definition len (self : t) : nat := length self.

(** The argument of [__getitem__]: an [int] or a [slice] (of step 1). *)
Inductive key : Type :=
| Int (i : Z)
| Slice (start stop : option Z).

(** Its result: a float or a [Vector]. *)
Inductive item : Type :=
| Scalar (x : R)
| Vec (v : t).

(** [zip(self, v)] followed by a binary operator. *)
Fixpoint zip_with (op : R -> R -> R) (u v : list R) : list R :=
  match u, v with
  | x :: u', y :: v' => op x y :: zip_with op u' v'
  | _, _ => []
  end.

(** [__matmul__] *)
Definition matmul (self v : t) : result R :=
  if (length v =? 0)%nat then Ok 0
  else if negb (len self =? length v)%nat then Raise ValueError
  else Ok (Py.sum (zip_with Rmult self v)).

(** [__mul__]: [reduce(lambda acc, x: acc + [x*number], self, [])] *)
Definition mul (self : t) (number : R) : t :=
  fold_left (fun acc x => acc ++ [x * number]) self [].

(** [__add__] *)
Definition add (self v : t) : result t :=
  if (length v =? 0)%nat then Ok self
  else if negb (len self =? length v)%nat then Raise ValueError
  else Ok (zip_with Rplus self v).

(** [__sub__] *)
Definition sub (self v : t) : result t :=
  if (length v =? 0)%nat then Ok self
  else if negb (len self =? length v)%nat then Raise ValueError
  else Ok (zip_with Rminus self v).

(** [__getitem__] *)
Definition getitem (self : t) (i : key) : result item :=
  match i with
  | Int i =>
      if (Z.of_nat (len self) <=? i)%Z then Raise IndexError
      else x <- Py.index self i ;; Ok (Scalar x)
  | Slice start stop =>
      if match start with Some s => (s <? 0)%Z | None => false end
      then Raise IndexError
      else if match stop with
              | Some e => (Z.of_nat (len self) <? e)%Z
              | None => false
              end
      then Raise IndexError
      else Ok (Vec (Py.slice self start stop))
  end.

(** [v[i]] and [v[a:b]] at the types their callers expect. *)
Definition get (self : t) (i : nat) : result R :=
  r <- getitem self (Int (Z.of_nat i)) ;;
  match r with Scalar x => Ok x | Vec _ => Raise TypeError end.

Definition get_slice (self : t) (a b : nat) : result t :=
  r <- getitem self (Slice (Some (Z.of_nat a)) (Some (Z.of_nat b))) ;;
  match r with Vec v => Ok v | Scalar _ => Raise TypeError end.

(** [concat]: [reduce(lambda acc, x: acc + x, (list(v) for v in args), [])] *)
Definition concat (args : list (list R)) : t :=
  fold_left (fun acc x => acc ++ x) args [].

Definition EMPTY : t := [].

End Vector.

(** ** NumPy one-dimensional arrays

    [Body] stores position and velocity as [np.ndarray]; the integrator's
    private [__sum] accumulates into one.  Binary operators broadcast: equal
    shapes combine elementwise, a shape of one element is stretched, any
    other pair of shapes is a [ValueError]. *)

Module Np.

Notation ndarray := (list R) (only parsing).

Definition binop (op : R -> R -> R) (a b : ndarray) : result ndarray :=
  if (length a =? length b)%nat then Ok (Vector.zip_with op a b)
  else match a, b with
       | [x], _ => Ok (map (fun y => op x y) b)
       | _, [y] => Ok (map (fun x => op x y) a)
       | _, _ => Raise ValueError
       end.

Definition add := binop Rplus.
Definition sub := binop Rminus.

(** [a * number] for a scalar [number] *)
Definition scale (a : ndarray) (number : R) : ndarray :=
  map (fun x => x * number) a.

(** [np.array(n * [0])] *)
Definition zeros (n : nat) : ndarray := repeat 0 n.

End Np.

(** ** solar/__init__.py *)

(** [exclude]: the elements [d] of the iterable with [d != obj], for the
    [!=] of the element type. *)
Definition exclude {T : Type} (ne : T -> T -> bool) (iterable : list T) (obj : T)
  : list T :=
  filter (fun d => ne d obj) iterable.

(** [x ** (1/deg)] for a float [x >= 0]. *)
Definition root (x : R) (deg : Z) : R :=
  if Req_dec_T x 0 then 0 else Rpower x (/ IZR deg).

(** [norm] *)
Definition norm (v : list R) (deg : Z) : result R :=
  if (deg <=? 0)%Z then Raise ValueError
  else Ok (root (Py.sum (map (fun el => Rabs el ^ Z.to_nat deg) v)) deg).

(** [get_magnitude]: once the lengths agree, [v2 - v1] is elementwise both
    for vectors and for arrays. *)
Definition get_magnitude (v1 v2 : list R) : result R :=
  if negb (length v1 =? length v2)%nat then Raise ValueError
  else norm (Vector.zip_with Rminus v2 v1) 2.

(** ** solar/math/physic/body.py *)

(** A [Body] object.  [ident] is the identity of the Python object: the
    class defines neither [__eq__] nor [__hash__], so [==], [!=], [is] and
    membership in a [set] all go by identity.  The seven random letters of a
    generated name are not modelled. *)
Record Body : Type := mkBody {
  ident : nat;
  name : string;
  mass : R;
  position : Np.ndarray;
  velocity : Np.ndarray
}.

Module BodyM.

(** [Body.__init__], allocating the object at identity [id]. *)
Definition init (id : nat) (mass : R) (position velocity : list R)
  (name : option string) : result Body :=
  if Rle_dec mass 0 then Raise ValueError
  else if negb (length position =? 3)%nat then Raise ValueError
  else if negb (length velocity =? 3)%nat then Raise ValueError
  else Ok (mkBody id (match name with Some s => s | None => "@"%string end)
                  mass position velocity).

(** [x is b] and [x != b] on bodies *)
Definition is_ (x b : Body) : bool := (ident x =? ident b)%nat.
Definition ne (x b : Body) : bool := negb (is_ x b).

(** [Body.flatten]: [(m, px, py, pz, vx, vy, vz)] *)
Definition flatten1 (self : Body) : list R :=
  [mass self] ++ position self ++ velocity self.

(** The loop of the module-level [flatten] with [split_mass=True]. *)
Fixpoint flatten_loop (bodies : list Body) (params masses : list R)
  : result (list R * list R) :=
  match bodies with
  | [] => Ok (params, masses)
  | body :: rest =>
      let flattened := flatten1 body in
      if negb (length flattened =? 7)%nat then Raise AssertionError
      else flatten_loop rest (params ++ skipn 1 flattened)
                             (masses ++ firstn 1 flattened)
  end.

(** [flatten(bodies)]: the flat state and the parallel masses.  The two
    closing assertions on the lengths of the result follow from the one made
    on every body and are not repeated. *)
Definition flatten (bodies : list Body) : result (Vector.t * list R) :=
  flatten_loop bodies [] [].

End BodyM.

(** ** solar/math/physic/__init__.py *)

Module Physic.

(** [__G] *)
Definition G : R := 66743015 / 10 ^ 18.

(** [mass > 0] as a test *)
Definition positive (m : R) : bool := if Rlt_dec 0 m then true else false.

(** [get_acceleration] *)
Definition get_acceleration (others : list Body) (particle : Body)
  : result Vector.t :=
  fold_left
    (fun acc other_body =>
       acceleration <- acc ;;
       r <- get_magnitude (position particle) (position other_body) ;;
       dir <- Np.sub (position other_body) (position particle) ;;
       Vector.add acceleration (Np.scale dir ((G * mass other_body) / r ^ 3)))
    others (Ok [0; 0; 0]).

(** The list comprehension that rebuilds the bodies from a flat state; the
    body read at offset [i] is allocated at identity [i]. *)
Definition bodies_of_state (current_state : Vector.t) (masses : list R)
  : result (list Body) :=
  mapM (fun '(i, mass) =>
          p <- Vector.get_slice current_state i (i + 3) ;;
          v <- Vector.get_slice current_state (i + 3) (i + 6) ;;
          BodyM.init i mass p v None)
       (combine (Py.range 0 (length current_state) 6) masses).

(** [n_body] *)
Definition n_body (t : R) (current_state : Vector.t) (masses : list R)
  : result Vector.t :=
  if negb (forallb positive masses) then Raise AssertionError
  else if negb (6 * length masses =? length current_state)%nat
  then Raise ValueError
  else
    body_list <- bodies_of_state current_state masses ;;
    next_state <-
      mapM (fun planet =>
              a <- get_acceleration (exclude BodyM.ne body_list planet) planet ;;
              Ok [velocity planet; a])
           body_list ;;
    let result := Vector.concat (List.concat next_state) in
    if negb (length result =? length current_state)%nat
    then Raise AssertionError
    else Ok result.

(** [get_gravitational_energy] *)
Definition get_gravitational_energy (particles : list Body) : result R :=
  u <- fold_left
         (fun acc '(i, p) =>
            u <- acc ;;
            terms <-
              mapM (fun j =>
                      pj <- Py.index particles (Z.of_nat j) ;;
                      d <- get_magnitude (position p) (position pj) ;;
                      Ok ((G * mass p * mass pj) / d))
                   (Py.range (i + 1) (length particles) 1) ;;
            Ok (u + Py.sum terms))
         (Py.enumerate particles) (Ok 0) ;;
  Ok (- u).

(** [get_kinetic_energy_gen] *)
Definition get_kinetic_energy_gen (particles : list (R * Np.ndarray))
  : result R :=
  terms <- mapM (fun '(mass, velocity) =>
                   nv <- norm (Np.scale velocity mass) 2 ;;
                   Ok (nv ^ 2 / (2 * mass)))
                particles ;;
  Ok (Py.sum terms).

(** [hamiltonian] *)
Definition hamiltonian (particles : list Body) : result R :=
  u <- get_gravitational_energy particles ;;
  t <- get_kinetic_energy_gen (map (fun b => (mass b, velocity b)) particles) ;;
  Ok (u + t).

End Physic.

(** ** solar/math/integrator/rungekutta.py *)

(** The Butcher tableau: the static fields [A], [b], [c] of a subclass. *)
Record tableau : Type := mkTableau {
  A : list (list R);
  b : list R;
  c : list R
}.

Module ARK.

Section Integrator.

(** The keyword arguments forwarded to [f]; [no_kwargs] is the empty dict an
    integrator starts with. *)
Variable KW : Type.
Variable no_kwargs : KW.

Definition deriv : Type := R -> Vector.t -> KW -> result Vector.t.

Record t : Type := mk {
  tab : tableau;
  func : deriv;
  y0 : Vector.t;
  h : R;
  n : Z;
  current_t : R;
  f_kwargs : KW
}.

(** [ARK.__init__] *)
Definition init (tb : tableau) (f : deriv) (y : Vector.t) (t0 tn : R) (steps : Z)
  : result t :=
  if Req_dec_T (t0 - tn) 0 then Raise ValueError
  else if (steps <=? 0)%Z then Raise ValueError
  else Ok (mk tb f y ((tn - t0) / IZR steps) steps t0 no_kwargs).

(** [set_func_kwargs] *)
Definition set_func_kwargs (self : t) (kwargs : KW) : t :=
  mk (tab self) (func self) (y0 self) (h self) (n self) (current_t self) kwargs.

(** The private [__sum]: the empty list for an empty list, otherwise a left
    fold of array additions from an array of zeros as long as the last
    vector. *)
Definition sum (vectors : list Vector.t) : result (list R) :=
  match vectors with
  | [] => Ok []
  | _ => fold_left (fun acc x => a <- acc ;; Np.add a x) vectors
                   (Ok (Np.zeros (length (last vectors []))))
  end.

(** [self.A[i, j]] on a two-dimensional array *)
Definition A_get (tb : tableau) (i j : nat) : result R :=
  match nth_error (A tb) i with
  | None => Raise IndexError
  | Some line =>
      match nth_error line j with
      | None => Raise IndexError
      | Some a => Ok a
      end
  end.

(** The inner loop [for i, c_i in enumerate(self.c)], extending [k_list]. *)
Fixpoint stages (self : t) (cs : list (nat * R)) (k_list : list Vector.t)
  : result (list Vector.t) :=
  match cs with
  | [] => Ok k_list
  | (i, c_i) :: rest =>
      terms <- mapM (fun '(j, k_i) =>
                       a <- A_get (tab self) i j ;; Ok (Vector.mul k_i a))
                    (Py.enumerate k_list) ;;
      s <- sum terms ;;
      y <- Vector.add (y0 self) s ;;
      fy <- func self (current_t self + c_i * h self) y (f_kwargs self) ;;
      stages self rest (k_list ++ [Vector.mul fy (h self)])
  end.

(** One iteration of the outer loop, up to its [yield]: the integrator
    after the update of [__y0] and [__current_t]. *)
Definition step (self : t) : result t :=
  k_list <- stages self (Py.enumerate (c (tab self))) [] ;;
  s <- sum (map (fun '(b_i, k_ni) => Vector.mul k_ni b_i)
                (combine (b (tab self)) k_list)) ;;
  y <- Vector.add (y0 self) s ;;
  Ok (mk (tab self) (func self) y (h self) (n self)
         (current_t self + h self) (f_kwargs self)).

(** The checks made on the tableau before the first iteration. *)
Definition validate (tb : tableau) : result unit :=
  if negb (length (A tb) =? length (c tb))%nat
     || negb (length (c tb) =? length (b tb))%nat
     || negb (length (A tb) =? length (b tb))%nat
  then Raise ValueError
  else
    _ <- mapM (fun '(i, line) =>
                 prev <- Py.index (A tb) (Z.of_nat i - 1) ;;
                 if negb (length line =? length prev)%nat
                 then Raise ValueError else Ok tt)
              (Py.enumerate (A tb)) ;;
    Ok tt.

(** What a consumer of a generator observes: the values yielded, in order,
    then either exhaustion ([None]) or the exception that ended it. *)
Definition trace : Type := (list Vector.t * option exn)%type.

(** [iters] iterations of the outer loop. *)
Fixpoint loop (iters : nat) (self : t) : trace :=
  match iters with
  | O => ([], None)
  | S iters' =>
      match step self with
      | Raise e => ([], Some e)
      | Ok self' =>
          let '(ys, r) := loop iters' self' in (y0 self' :: ys, r)
      end
  end.

(** [run_simulation] *)
Definition run_simulation (self : t) : trace :=
  match validate (tab self) with
  | Raise e => ([], Some e)
  | Ok _ => loop (Z.to_nat (n self + 1)) self
  end.

(** The integrator after [m] updates. *)
Fixpoint iter_step (m : nat) (self : t) : result t :=
  match m with
  | O => Ok self
  | S m' => self' <- step self ;; iter_step m' self'
  end.

End Integrator.

End ARK.

Arguments ARK.mk {KW}.
Arguments ARK.tab {KW}.
Arguments ARK.func {KW}.
Arguments ARK.y0 {KW}.
Arguments ARK.h {KW}.
Arguments ARK.n {KW}.
Arguments ARK.current_t {KW}.
Arguments ARK.f_kwargs {KW}.
Arguments ARK.init {KW}.
Arguments ARK.set_func_kwargs {KW}.
Arguments ARK.stages {KW}.
Arguments ARK.step {KW}.
Arguments ARK.loop {KW}.
Arguments ARK.run_simulation {KW}.
Arguments ARK.iter_step {KW}.

(** [ERK4]: the classic four-stage tableau. *)
Definition ERK4 : tableau :=
  mkTableau [ [0;     0;     0; 0];
              [1 / 2; 0;     0; 0];
              [0;     1 / 2; 0; 0];
              [0;     0;     1; 0] ]
            [1 / 6; 1 / 3; 1 / 3; 1 / 6]
            [0; 1 / 2; 1 / 2; 1].

(** ** solar/solar_simulator.py *)

Module SOLARSimulator.

(** One value of [__statedict]: the coordinates recorded for a body. *)
Record track : Type := mkTrack {
  xs : list R;
  ys : list R;
  zs : list R;
  label : string
}.

(** The filled [__error] dict: times, Hamiltonians and their deltas. *)
Record energy : Type := mkEnergy {
  ex : list Z;
  ey : list R;
  edy : list R
}.

(** A call received by one of the two callbacks. *)
Inductive callback : Type :=
| LoopCall (t : nat)
| AfterCall.

(** The simulator object.  [error = None] and [statedict = []] stand for
    the two empty dicts of a fresh object; the keys of [__statedict] are
    [0 .. len(data)-1], so it is kept as the list of its values.  [calls]
    logs the callbacks invoked so far. *)
Record sim : Type := mk {
  data : list Body;
  duration : Z;
  step : Z;
  error : option energy;
  statedict : list track;
  calls : list callback
}.

Definition Req_bool (x y : R) : bool := if Req_dec_T x y then true else false.

(** [all(cx == bx for (cx, bx) in zip(x.position, b.position))] *)
Definition same_position (x b : Body) : bool :=
  forallb (fun '(cx, bx) => Req_bool cx bx) (combine (position x) (position b)).

(** The local function [check_pos] of [__init__]. *)
Definition check_pos (data : list Body) (acc : bool) (x : Body) : bool :=
  if negb acc then acc
  else if existsb (fun b => negb (BodyM.is_ x b) && same_position x b) data
       then false
       else true.

(** [len(set(data))]: bodies hash by identity. *)
Definition set_size (data : list Body) : nat :=
  length (nodup Nat.eq_dec (map ident data)).

(** [SOLARSimulator.__init__] *)
Definition init (data : list Body) (duration step : Z) : result sim :=
  if negb (set_size data =? length data)%nat
     || negb (fold_left (check_pos data) data true)
  then Raise BodyError
  else if (duration <=? 0)%Z then Raise ValueError
  else if ((step <=? 0) || (duration <? step))%Z then Raise ValueError
  else Ok (mk data duration step None [] []).

(** The derivative handed to the integrator: [n_body] called with the
    keyword arguments, which must provide [masses]. *)
Definition n_body_kw (t : R) (y : Vector.t) (kw : option (list R))
  : result Vector.t :=
  match kw with
  | None => Raise TypeError
  | Some masses => Physic.n_body t y masses
  end.

Definition set_nth {A : Type} (l : list A) (i : nat) (x : A) : list A :=
  firstn i l ++ x :: skipn (S i) l.

(** [for j in range(0, len(t_state), 6)]: three appends per body. *)
Fixpoint record_tracks (offsets : list nat) (t_state : Vector.t)
  (sd : list track) : result (list track) :=
  match offsets with
  | [] => Ok sd
  | j :: rest =>
      match nth_error sd (j / 6) with
      | None => Raise KeyError
      | Some tr =>
          x <- Vector.get t_state j ;;
          y <- Vector.get t_state (j + 1) ;;
          z <- Vector.get t_state (j + 2) ;;
          record_tracks rest t_state
            (set_nth sd (j / 6)
               (mkTrack (xs tr ++ [x]) (ys tr ++ [y]) (zs tr ++ [z]) (label tr)))
      end
  end.

(** The body of the loop over the integrator's states, at index [t]. *)
Definition on_state (self : sim) (masses : list R) (t : nat) (t_state : Vector.t)
  : result sim :=
  sd <- record_tracks (Py.range 0 (length t_state) 6) t_state (statedict self) ;;
  bodies <- Physic.bodies_of_state t_state masses ;;
  h <- Physic.hamiltonian bodies ;;
  match error self with
  | None => Raise KeyError
  | Some e =>
      prev <- Py.index (ey e) (-1) ;;
      Ok (mk (data self) (duration self) (step self)
             (Some (mkEnergy (ex e ++ [(Z.of_nat t * step self)%Z])
                             (ey e ++ [h])
                             (edy e ++ [h - prev])))
             sd
             (calls self ++ [LoopCall t]))
  end.

(** [for t, t_state in enumerate(...)] over the states yielded. *)
Fixpoint consume (masses : list R) (states : list Vector.t) (t : nat) (self : sim)
  : result sim :=
  match states with
  | [] => Ok self
  | t_state :: rest =>
      self' <- on_state self masses t t_state ;;
      consume masses rest (S t) self'
  end.

(** [SOLARSimulator.run_simulation] *)
Definition run_simulation (self : sim) : result sim :=
  let start := 0 in
  let stop := IZR (duration self * 3600) in
  let step_s := IZR (step self * 3600) in
  '(flattened, masses) <- BodyM.flatten (data self) ;;
  let sd := map (fun b => mkTrack [] [] [] (name b)) (data self) in
  h <- Physic.hamiltonian (data self) ;;
  let self0 := mk (data self) (duration self) (step self)
                  (Some (mkEnergy [0%Z] [h] [0])) sd (calls self) in
  rk4 <- ARK.init None ERK4 n_body_kw flattened start stop
           (Py.int ((stop - start) / step_s)) ;;
  let rk4 := ARK.set_func_kwargs rk4 (Some masses) in
  let '(states, ending) := ARK.run_simulation rk4 in
  self1 <- consume masses states 0 self0 ;;
  match ending with
  | Some e => Raise e
  | None =>
      Ok (mk (data self1) (duration self1) (step self1) (error self1)
             (statedict self1) (calls self1 ++ [AfterCall]))
  end.

End SOLARSimulator.

(** ** solar/math/tools/vector.py, remaining methods *)

Module VectorOps.

(** [__eq__] against another [Vector]: equal lengths and equal elements at
    every index of [range(len(self))]. *)
Definition eq (self o : Vector.t) : result bool :=
  if (Vector.len self =? Vector.len o)%nat
  then bs <- mapM (fun i =>
                     x <- Vector.get self i ;;
                     y <- Vector.get o i ;;
                     Ok (SOLARSimulator.Req_bool x y))
                  (Py.range 0 (Vector.len self) 1) ;;
       Ok (forallb (fun b => b) bs)
  else Ok false.

(** [Vector.sum] on a collection of vectors: [EMPTY] for no vector,
    otherwise [reduce(sum_core, iterable[1:], iterable[0])] where [sum_core]
    rejects a vector whose length is not that of the first. *)
Definition sum (iterable : list Vector.t) : result Vector.t :=
  match iterable with
  | [] => Ok Vector.EMPTY
  | first :: rest =>
      fold_left (fun acc x =>
                   a <- acc ;;
                   if negb (length x =? length first)%nat
                   then Raise ValueError
                   else Vector.add a x)
                rest (Ok first)
  end.

End VectorOps.

(** ** solar/math/physic/body.py, setters and joined flattening *)

Module BodySet.

(** The setter of [position]: the object keeps its identity. *)
Definition set_position (self : Body) (v : list R) : result Body :=
  if negb (length v =? 3)%nat then Raise ValueError
  else Ok (mkBody (ident self) (name self) (mass self) v (velocity self)).

(** The setter of [velocity]. *)
Definition set_velocity (self : Body) (v : list R) : result Body :=
  if negb (length v =? 3)%nat then Raise ValueError
  else Ok (mkBody (ident self) (name self) (mass self) (position self) v).

(** The loop of the module-level [flatten] with [split_mass=False]. *)
Fixpoint flatten_joined_loop (bodies : list Body) (params : list R)
  : result (list R) :=
  match bodies with
  | [] => Ok params
  | body :: rest =>
      let flattened := BodyM.flatten1 body in
      if negb (length flattened =? 7)%nat then Raise AssertionError
      else flatten_joined_loop rest (params ++ flattened)
  end.

(** [flatten(bodies, False)]: masses kept inside the flat vector. *)
Definition flatten_joined (bodies : list Body) : result Vector.t :=
  flatten_joined_loop bodies [].

End BodySet.

(** ** solar/solar_simulator.py, the guard of [show_results] *)

(** The test opening [show_results]: when it holds the method raises
    [RuntimeError] before anything is drawn.  The plotting that follows is
    not modelled. *)
Definition results_missing (self : SOLARSimulator.sim) : bool :=
  match SOLARSimulator.error self with None => true | Some _ => false end
  || match SOLARSimulator.statedict self with [] => true | _ :: _ => false end.

(** ** solar/presets/__init__.py and [Body.jsonify]

    A [BodyLike] is a dict from strings to a name, a mass or a sequence of
    numbers; it is kept as the list of its items. *)

Module Presets.

Inductive value : Type :=
| Str (s : string)
| Num (x : R)
| Seq (l : list R).

Definition dict : Type := list (string * value).

(** [d.keys()] and [d[k]] *)
Definition dict_keys (d : dict) : list string := map fst d.

Fixpoint lookup (d : dict) (k : string) : option value :=
  match d with
  | [] => None
  | (k', v) :: rest => if String.eqb k k' then Some v else lookup rest k
  end.

(** The local [keys] of [convert_bodylikes] *)
Definition keys : list string :=
  ["name"; "velocity"; "position"; "mass"]%string.

Definition mem (k : string) (l : list string) : bool :=
  existsb (String.eqb k) l.

(** [keys == set(d.keys())]: the two sets have the same members. *)
Definition same_keys (d : dict) : bool :=
  forallb (fun k => mem k (dict_keys d)) keys
  && forallb (fun k => mem k keys) (dict_keys d).

(** [Body.jsonify] *)
Definition jsonify (self : Body) : dict :=
  [("name"%string, Str (name self));
   ("position"%string, Seq (position self));
   ("velocity"%string, Seq (velocity self));
   ("mass"%string, Num (mass self))].

(** [Body] called with the items of the dict as keyword arguments and
    allocated at identity [id]: a keyword that is missing is a [TypeError]; the type assertions of the constructor come
    before its checks; a name that is not a string is replaced by a
    generated one. *)
Definition body_of (id : nat) (d : dict) : result Body :=
  match lookup d "mass", lookup d "position", lookup d "velocity",
        lookup d "name" with
  | Some m, Some p, Some v, Some nm =>
      match p, v, m with
      | Seq p, Seq v, Num m =>
          BodyM.init id m p v (match nm with Str s => Some s | _ => None end)
      | _, _, _ => Raise AssertionError
      end
  | _, _, _, _ => Raise TypeError
  end.

(** [convert_bodylikes] *)
Definition convert_bodylikes (data : list dict) : result (list Body) :=
  if negb (forallb same_keys data) then Raise ValueError
  else mapM (fun '(i, d) => body_of i d) (Py.enumerate data).

End Presets.

(** * Specification-level definitions

    The definitions below are not translated from the source: they are the
    vocabulary in which the properties of the next part are stated. *)

(** The row a tableau row of index [i] is compared with: the previous one,
    or the last one for [i = 0] (Python's [A[i - 1]]). *)
Definition prev_row (rows : list (list R)) (i : nat) : list R :=
  nth (match i with O => length rows - 1 | S i' => i' end)%nat rows [].

(** All rows of a two-dimensional array have the same length. *)
Definition rectangular (rows : list (list R)) : Prop :=
  forall r1 r2, In r1 rows -> In r2 rows -> length r1 = length r2.

(** The shape invariant of an [s]-stage tableau. *)
Definition well_formed (tb : tableau) (s : nat) : Prop :=
  length (A tb) = s /\ length (b tb) = s /\ length (c tb) = s /\
  forall line, In line (A tb) -> length line = s.

(** A rectangular, non-square tableau and an integrator over it. *)
Definition wide_tableau : tableau :=
  mkTableau [ [0; 0; 0]; [0; 0; 0] ] [1; 1] [0; 0].

Definition wide_integrator : ARK.t unit :=
  ARK.mk wide_tableau (fun _ y _ => Ok y) [1] 1 1%Z 0 tt.

(** Two entries of the body sequence have the same position. *)
Definition shares_position (data : list Body) : Prop :=
  exists i j x y,
    i <> j /\ nth_error data i = Some x /\ nth_error data j = Some y /\
    position x = position y.

(** The invariant established by [Body.__init__] and kept by its setters. *)
Definition body_ok (x : Body) : Prop :=
  0 < mass x /\ length (position x) = 3%nat /\ length (velocity x) = 3%nat.

(** Identities name objects: two entries with one identity are one body. *)
Definition coherent (data : list Body) : Prop :=
  forall x y, In x data -> In y data -> ident x = ident y -> x = y.

(** A two-body system used to exercise the statements. *)
Definition star : Body := mkBody 0 "star" 2 [0; 0; 0] [0; 0; 0].
Definition planet : Body := mkBody 1 "planet" 1 [1; 0; 0] [0; 1; 0].
Definition two_bodies : list Body := [star; planet].

(** Sum of [f j] over the indices [j] of a list. *)
Definition big_sum (f : nat -> R) (l : list nat) : R :=
  fold_right (fun j acc => f j + acc) 0 l.

(** Indices of the bodies other than body [i] among [k] bodies. *)
Definition others (k i : nat) : list nat :=
  filter (fun j => negb (j =? i)%nat) (seq 0 k).

(** Component [c] of the position and of the velocity of body [i] in a flat
    state: body [i] occupies the entries [6i .. 6i+5]. *)
Definition pos_at (state : list R) (i c : nat) : R := nth (6 * i + c) state 0.
Definition vel_at (state : list R) (i c : nat) : R := nth (6 * i + 3 + c) state 0.

(** [|position_j - position_i|], the Euclidean distance of bodies [i], [j]. *)
Definition distance (state : list R) (i j : nat) : R :=
  sqrt (big_sum (fun c => (pos_at state j c - pos_at state i c) ^ 2) [0; 1; 2]%nat).

(** Component [c] of the acceleration of body [i]: the sum over the other
    bodies [j] of [G * m_j * (p_j - p_i) / |p_j - p_i|^3]. *)
Definition accel_at (state masses : list R) (i c : nat) : R :=
  big_sum (fun j => Physic.G * nth j masses 0
                    * (pos_at state j c - pos_at state i c)
                    / distance state i j ^ 3)
          (others (length masses) i).

(** The derivative of a flat state: per body, velocity then acceleration. *)
Definition n_body_spec (state masses : list R) : list R :=
  flat_map (fun i => [vel_at state i 0; vel_at state i 1; vel_at state i 2;
                      accel_at state masses i 0; accel_at state masses i 1;
                      accel_at state masses i 2]%nat)
           (seq 0 (length masses)).

(** The bodies of a flat state are at pairwise distinct positions. *)
Definition distinct_positions (state : list R) (k : nat) : Prop :=
  forall i j, (i < k)%nat -> (j < k)%nat -> i <> j ->
    exists c, (c < 3)%nat /\ pos_at state i c <> pos_at state j c.

(** The body rebuilt from the entries [6i .. 6i+5] of a flat state. *)
Definition body_at (state masses : list R) (i : nat) : Body :=
  mkBody (6 * i) "@" (nth i masses 0)
         [pos_at state i 0; pos_at state i 1; pos_at state i 2]%nat
         [vel_at state i 0; vel_at state i 1; vel_at state i 2]%nat.

(** The Euclidean norm [|v|]. *)
Definition norm2 (v : list R) : R :=
  sqrt (fold_right (fun x acc => x ^ 2 + acc) 0 v).

(** Its flat state and masses. *)
Definition two_body_state : Vector.t := [0; 0; 0; 0; 0; 0; 1; 0; 0; 0; 1; 0].
Definition two_body_masses : list R := [2; 1].

(** Placeholder returned by [nth] outside of a body sequence. *)
Definition no_body : Body := mkBody 0 "" 0 [] [].

(** Total kinetic energy: the sum over the bodies of [|m v|^2 / (2 m)]. *)
Definition kinetic_energy (particles : list Body) : R :=
  big_sum (fun i =>
             let p := nth i particles no_body in
             norm2 (map (fun x => mass p * x) (velocity p)) ^ 2 / (2 * mass p))
          (seq 0 (length particles)).

(** Total potential energy: minus the sum over the pairs [i < j] of
    [G m_i m_j / |p_i - p_j|]. *)
Definition potential_energy (particles : list Body) : R :=
  - big_sum (fun i =>
       big_sum (fun j =>
          if (i <? j)%nat
          then Physic.G * mass (nth i particles no_body)
                        * mass (nth j particles no_body)
               / norm2 (Vector.zip_with Rminus
                          (position (nth i particles no_body))
                          (position (nth j particles no_body)))
          else 0)
         (seq 0 (length particles)))
     (seq 0 (length particles)).

(** The entries of a body sequence are at pairwise distinct positions. *)
Definition apart (particles : list Body) : Prop :=
  forall i j x y,
    i <> j -> nth_error particles i = Some x -> nth_error particles j = Some y ->
    position x <> position y.

(** Vector-space operations on lists of reals of one common length: the
    mathematical [u + v], [a . v] and the sum of a family of vectors of
    dimension [d]. *)
Definition vadd (u v : list R) : list R := Vector.zip_with Rplus u v.
Definition smul (a : R) (v : list R) : list R := map (Rmult a) v.
Definition vsum (d : nat) (vs : list (list R)) : list R :=
  fold_right vadd (repeat 0 d) vs.

(** [Sum_{j < n} coef j . ks_j] for stage vectors [ks] of dimension [d]. *)
Definition lincomb (d : nat) (coef : nat -> R) (ks : list (list R)) (n : nat)
  : list R :=
  vsum d (map (fun j => smul (coef j) (nth j ks [])) (seq 0 n)).

(** The coefficient [A[i, j]] of a tableau. *)
Definition A_at (tb : tableau) (i j : nat) : R := nth j (nth i (A tb) []) 0.

(** One explicit Runge-Kutta step from [(t, y)] to [y'] with step size [h]:
    there are stages [k_0 .. k_{s-1}] with
    [k_i = h . f(t + c_i h, y + Sum_{j<i} A[i,j] . k_j, kw)] and
    [y' = y + Sum_{i<s} b_i . k_i]. *)
Definition rk_step_spec {KW : Type} (tb : tableau)
  (f : R -> Vector.t -> KW -> result Vector.t) (kw : KW) (h t : R)
  (y y' : list R) : Prop :=
  exists ks : list (list R),
    length ks = length (c tb) /\
    (forall i, (i < length (c tb))%nat ->
       exists v,
         f (t + nth i (c tb) 0 * h)
           (vadd y (lincomb (length y) (A_at tb i) ks i)) kw = Ok v /\
         nth i ks [] = smul h v) /\
    y' = vadd y (lincomb (length y) (fun i => nth i (b tb) 0) ks (length (c tb))).

(** A derivative function that maps states of dimension [d] to vectors of
    dimension [d] when given the keyword arguments [kw]. *)
Definition preserves_dim {KW : Type}
  (f : R -> Vector.t -> KW -> result Vector.t) (kw : KW) (d : nat) : Prop :=
  forall (t : R) (y : list R), length y = d ->
    exists v, f t y kw = Ok v /\ length v = d.

(** The derivative used by the integrator's tests: [f(t, s) = (t + s[0])]. *)
Definition test_f (t : R) (y : Vector.t) (_ : unit) : result Vector.t :=
  Ok [t + nth 0 y 0].

(** A trajectory holds [cnt] points. *)
Definition track_points (cnt : nat) (tr : SOLARSimulator.track) : Prop :=
  length (SOLARSimulator.xs tr) = cnt /\
  length (SOLARSimulator.ys tr) = cnt /\
  length (SOLARSimulator.zs tr) = cnt.

(** The results held by a simulator after [cnt] states were consumed: one
    trajectory of [cnt] points per body, and energy series made of their
    initial entry followed by [cnt] entries. *)
Definition recorded (k cnt : nat) (sim : SOLARSimulator.sim) : Prop :=
  length (SOLARSimulator.statedict sim) = k /\
  (forall tr, In tr (SOLARSimulator.statedict sim) -> track_points cnt tr) /\
  exists e,
    SOLARSimulator.error sim = Some e /\
    length (SOLARSimulator.ex e) = S cnt /\
    length (SOLARSimulator.ey e) = S cnt /\
    length (SOLARSimulator.edy e) = S cnt.

(** A body sequence the driver accepts. *)
Definition valid_system (data : list Body) : Prop :=
  (forall x, In x data -> body_ok x) /\ coherent data /\ ~ shares_position data.

(** What a body contributes to the physics: its mass, position and
    velocity (neither its name nor its identity). *)
Definition physical (x : Body) : R * list R * list R :=
  (mass x, position x, velocity x).

(** The Hamiltonian of the bodies rebuilt from a flat state. *)
Definition energy_of (masses : list R) (state : list R) : R :=
  let bodies := map (body_at state masses) (seq 0 (length masses)) in
  potential_energy bodies + kinetic_energy bodies.

(** The differences of consecutive values, starting from [prev]. *)
Fixpoint deltas (prev : R) (hs : list R) : list R :=
  match hs with
  | [] => []
  | h :: rest => (h - prev) :: deltas h rest
  end.

(** The trajectory of body [i] extended by its positions in [states]. *)
Definition add_points (states : list (list R)) (i : nat)
  (tr : SOLARSimulator.track) : SOLARSimulator.track :=
  SOLARSimulator.mkTrack
    (SOLARSimulator.xs tr ++ map (fun st => nth (6 * i) st 0) states)
    (SOLARSimulator.ys tr ++ map (fun st => nth (6 * i + 1) st 0) states)
    (SOLARSimulator.zs tr ++ map (fun st => nth (6 * i + 2) st 0) states)
    (SOLARSimulator.label tr).

Definition no_track : SOLARSimulator.track :=
  SOLARSimulator.mkTrack [] [] [] "".

(** The integrator the driver builds for [n] steps over the given bodies. *)
Definition driver_integrator (data : list Body) (duration : Z) (n : Z)
  : ARK.t (option (list R)) :=
  ARK.mk ERK4 SOLARSimulator.n_body_kw
         (flat_map (fun x => position x ++ velocity x) data)
         ((IZR (duration * 3600) - 0) / IZR n) n 0
         (Some (map mass data)).

(** The states it yields. *)
Definition driver_states (data : list Body) (duration : Z) (n : Z)
  : list Vector.t :=
  fst (ARK.run_simulation (driver_integrator data duration n)).

(** * Properties *)

(** ** Vector: binary operators and dimensions *)

Section VectorDimensions.

Lemma length_zero_eqb (v : list R) : (length v =? 0)%nat = true <-> length v = 0%nat.
Proof. apply Nat.eqb_eq. Qed.

Lemma dim_guard (u v : Vector.t) :
  Vector.len u <> Vector.len v ->
  negb (Vector.len u =? length v)%nat = true.
Proof.
  intros Hne. apply negb_true_iff, Nat.eqb_neq. exact Hne.
Qed.

(** C7, as stated, fails: the right operand of dimension 0 is absorbed.
    With [u = (1)] and [v = ()], of dimensions 1 and 0, [u + v] and [u - v]
    return [u] and [u @ v] returns 0; no error is raised. *)
Lemma vector_unequal_dim_empty_right_no_error :
  Vector.len [1] <> Vector.len Vector.EMPTY /\
  Vector.add [1] Vector.EMPTY = Ok [1] /\
  Vector.sub [1] Vector.EMPTY = Ok [1] /\
  Vector.matmul [1] Vector.EMPTY = Ok 0.
Proof.
  repeat split; try reflexivity. simpl. discriminate.
Qed.

(** C7 (amended): for vectors [u], [v] of unequal dimension, [u + v],
    [u - v] and [u @ v] raise the dimension error [ValueError] whenever the
    right operand [v] has a non-zero dimension (this includes a left operand
    of dimension 0); when [v] has dimension 0 no error is raised, [u + v]
    and [u - v] return [u] and [u @ v] returns 0. *)
Theorem vector_unequal_dim :
  forall u v : Vector.t,
    Vector.len u <> Vector.len v ->
    (Vector.len v <> 0%nat ->
       Vector.add u v = Raise ValueError /\
       Vector.sub u v = Raise ValueError /\
       Vector.matmul u v = Raise ValueError) /\
    (Vector.len v = 0%nat ->
       Vector.add u v = Ok u /\
       Vector.sub u v = Ok u /\
       Vector.matmul u v = Ok 0).
Proof.
  intros u v Hne. split.
  - intros Hv. unfold Vector.add, Vector.sub, Vector.matmul.
    destruct (length v =? 0)%nat eqn:E.
    + apply Nat.eqb_eq in E. contradiction.
    + rewrite (dim_guard u v Hne). repeat split.
  - intros Hv. unfold Vector.add, Vector.sub, Vector.matmul.
    apply length_zero_eqb in Hv. rewrite Hv. repeat split.
Qed.

Lemma vector_unequal_dim_witness :
  Vector.len [1; 2; 3; 4] <> Vector.len [5; 4; 3; 2; 1] /\
  (Vector.add [1; 2; 3; 4] [5; 4; 3; 2; 1] = Raise ValueError /\
   Vector.sub [1; 2; 3; 4] [5; 4; 3; 2; 1] = Raise ValueError /\
   Vector.matmul [1; 2; 3; 4] [5; 4; 3; 2; 1] = Raise ValueError) /\
  (Vector.add [] [5; 4; 3; 2; 1] = Raise ValueError /\
   Vector.sub [] [5; 4; 3; 2; 1] = Raise ValueError /\
   Vector.matmul [] [5; 4; 3; 2; 1] = Raise ValueError).
Proof.
  split; [simpl; discriminate|]. split.
  - apply (vector_unequal_dim [1; 2; 3; 4] [5; 4; 3; 2; 1]); simpl; discriminate.
  - apply (vector_unequal_dim [] [5; 4; 3; 2; 1]); simpl; discriminate.
Defined.

End VectorDimensions.

(** ** Vector: element and slice access *)

Section VectorAccess.

Lemma index_in_range {X : Type} (l : list X) (i : Z) :
  (0 <= i < Z.of_nat (length l))%Z ->
  exists x, nth_error l (Z.to_nat i) = Some x /\ Py.index l i = Ok x.
Proof.
  intros Hi. unfold Py.index.
  destruct (i <? 0)%Z eqn:Eneg; [apply Z.ltb_lt in Eneg; lia|].
  rewrite Eneg. simpl.
  destruct (Z.of_nat (length l) <=? i)%Z eqn:Ehi; [apply Z.leb_le in Ehi; lia|].
  simpl.
  destruct (nth_error l (Z.to_nat i)) as [x|] eqn:En.
  - exists x. split; reflexivity.
  - apply nth_error_None in En. lia.
Qed.

Lemma getitem_slice_in_bounds (v : Vector.t) (s e : Z) :
  (0 <= s <= e)%Z -> (e <= Z.of_nat (Vector.len v))%Z ->
  Vector.getitem v (Vector.Slice (Some s) (Some e))
  = Ok (Vector.Vec (firstn (Z.to_nat (e - s)) (skipn (Z.to_nat s) v))).
Proof.
  intros Hse He. unfold Vector.getitem, Vector.len in *.
  destruct (s <? 0)%Z eqn:Es; [apply Z.ltb_lt in Es; lia|].
  destruct (Z.of_nat (length v) <? e)%Z eqn:Ee; [apply Z.ltb_lt in Ee; lia|].
  unfold Py.slice, Py.clamp. rewrite Es.
  destruct (e <? 0)%Z eqn:Ee0; [apply Z.ltb_lt in Ee0; lia|].
  rewrite !Z.min_l by lia. reflexivity.
Qed.

(** C9, as stated, fails on both kinds of key.  On [v = (1, 2, 3, 4)] the
    negative index [-1] raises nothing and returns the last element, and the
    slice [0:4], whose stop 4 lies outside [0, 4), returns the whole
    vector. *)
Lemma vector_getitem_negative_index_and_full_slice :
  Vector.getitem [1; 2; 3; 4] (Vector.Int (-1)) = Ok (Vector.Scalar 4) /\
  Vector.getitem [1; 2; 3; 4] (Vector.Slice (Some 0%Z) (Some 4%Z))
    = Ok (Vector.Vec [1; 2; 3; 4]).
Proof.
  split; reflexivity.
Qed.

(** C9 (amended): for every vector [v], [v[i]] with an integer [i] raises
    the boundary error [IndexError] whenever [i >= len(v)] and returns the
    [i]-th element whenever [0 <= i < len(v)]; slice access raises
    [IndexError] whenever the given start is negative or the given stop
    exceeds [len(v)], and a slice [s:e] with [0 <= s <= e <= len(v)] (a stop
    equal to [len(v)] included) returns the elements of index [s] to
    [e - 1]. *)
Theorem vector_getitem_bounds :
  forall v : Vector.t,
    (forall i, (Z.of_nat (Vector.len v) <= i)%Z ->
       Vector.getitem v (Vector.Int i) = Raise IndexError) /\
    (forall i, (0 <= i < Z.of_nat (Vector.len v))%Z ->
       exists x, nth_error v (Z.to_nat i) = Some x /\
                 Vector.getitem v (Vector.Int i) = Ok (Vector.Scalar x)) /\
    (forall s stop, (s < 0)%Z ->
       Vector.getitem v (Vector.Slice (Some s) stop) = Raise IndexError) /\
    (forall start e, (Z.of_nat (Vector.len v) < e)%Z ->
       Vector.getitem v (Vector.Slice start (Some e)) = Raise IndexError) /\
    (forall s e, (0 <= s <= e)%Z -> (e <= Z.of_nat (Vector.len v))%Z ->
       Vector.getitem v (Vector.Slice (Some s) (Some e))
       = Ok (Vector.Vec (firstn (Z.to_nat (e - s)) (skipn (Z.to_nat s) v)))).
Proof.
  intros v. repeat split.
  - intros i Hi. unfold Vector.getitem.
    apply Z.leb_le in Hi. rewrite Hi. reflexivity.
  - intros i Hi. unfold Vector.getitem.
    destruct (Z.of_nat (Vector.len v) <=? i)%Z eqn:E;
      [apply Z.leb_le in E; lia|].
    destruct (index_in_range v i Hi) as (x & Hn & Hx).
    exists x. split; [exact Hn|]. rewrite Hx. reflexivity.
  - intros s stop Hs. unfold Vector.getitem.
    apply Z.ltb_lt in Hs. rewrite Hs. reflexivity.
  - intros start e He. unfold Vector.getitem.
    apply Z.ltb_lt in He. rewrite He.
    destruct start as [s|]; [destruct (s <? 0)%Z|]; reflexivity.
  - intros s e Hse He. apply getitem_slice_in_bounds; assumption.
Qed.

Lemma vector_getitem_bounds_witness :
  Vector.getitem [1; 2; 3; 4] (Vector.Int 10) = Raise IndexError /\
  (exists x, nth_error [1; 2; 3; 4] (Z.to_nat 2) = Some x /\
             Vector.getitem [1; 2; 3; 4] (Vector.Int 2) = Ok (Vector.Scalar x)) /\
  Vector.getitem [1; 2; 3; 4] (Vector.Slice (Some (-3)%Z) (Some 2%Z))
    = Raise IndexError /\
  Vector.getitem [1; 2; 3; 4] (Vector.Slice (Some 0%Z) (Some 10%Z))
    = Raise IndexError /\
  Vector.getitem [1; 2; 3; 4] (Vector.Slice (Some 1%Z) (Some 3%Z))
    = Ok (Vector.Vec (firstn (Z.to_nat (3 - 1)) (skipn (Z.to_nat 1) [1; 2; 3; 4]))).
Proof.
  destruct (vector_getitem_bounds [1; 2; 3; 4]) as (H1 & H2 & H3 & H4 & H5).
  split; [apply H1; simpl; lia|].
  split; [apply H2; simpl; lia|].
  split; [apply H3; lia|].
  split; [apply H4; simpl; lia|].
  apply H5; simpl; lia.
Defined.

End VectorAccess.

(** ** Fallible maps *)

Section MapM.

Context {X Y : Type}.
Variable f : X -> result Y.

Lemma mapM_ok_length (l : list X) (ys : list Y) :
  mapM f l = Ok ys -> length ys = length l.
Proof.
  revert ys. induction l as [|x l IH]; simpl; intros ys H.
  - inversion H. reflexivity.
  - destruct (f x) as [y|e]; simpl in H; [|discriminate].
    destruct (mapM f l) as [ys'|e]; simpl in H; [|discriminate].
    inversion H. simpl. f_equal. apply IH. reflexivity.
Qed.

Lemma mapM_raise_inv (l : list X) (e : exn) :
  mapM f l = Raise e -> exists x, In x l /\ f x = Raise e.
Proof.
  induction l as [|x l IH]; simpl; intros H; [discriminate|].
  destruct (f x) as [y|e'] eqn:Ex; simpl in H.
  - destruct (mapM f l) as [ys'|e'']; simpl in H; [discriminate|].
    inversion H; subst. destruct IH as (x' & Hin & Hx'); [reflexivity|].
    exists x'. auto.
  - inversion H; subst. exists x. auto.
Qed.

Lemma mapM_ok_inv (l : list X) (ys : list Y) :
  mapM f l = Ok ys -> forall x, In x l -> exists y, f x = Ok y.
Proof.
  revert ys. induction l as [|x l IH]; simpl; intros ys H x' Hin; [contradiction|].
  destruct (f x) as [y|e] eqn:Ex; simpl in H; [|discriminate].
  destruct (mapM f l) as [ys'|e]; simpl in H; [|discriminate].
  destruct Hin as [<-|Hin]; [eauto|]. eapply IH; eauto.
Qed.

Lemma mapM_pure (g : X -> Y) (l : list X) :
  (forall x, In x l -> f x = Ok (g x)) -> mapM f l = Ok (map g l).
Proof.
  induction l as [|x l IH]; simpl; intros H; [reflexivity|].
  rewrite (H x) by auto. simpl. rewrite IH by auto. reflexivity.
Qed.

End MapM.

Lemma mapM_map {X Y W : Type} (f : Y -> result W) (g : X -> Y) (l : list X) :
  mapM f (map g l) = mapM (fun x => f (g x)) l.
Proof.
  induction l as [|x l IH]; simpl; [reflexivity|]. rewrite IH. reflexivity.
Qed.

Lemma In_combine_seq {X : Type} (l : list X) (s i : nat) (x : X) :
  In (i, x) (combine (seq s (length l)) l) <->
  (s <= i)%nat /\ nth_error l (i - s) = Some x.
Proof.
  revert s. induction l as [|y l IH]; intros s; simpl.
  - split; [contradiction|]. intros [_ H]. destruct (i - s)%nat; discriminate.
  - rewrite IH. split.
    + intros [H|[Hle Hn]].
      * inversion H; subst. rewrite Nat.sub_diag. auto.
      * split; [lia|]. replace (i - s)%nat with (S (i - S s)) by lia. exact Hn.
    + intros [Hle Hn]. destruct (Nat.eq_dec s i) as [->|Hne].
      * rewrite Nat.sub_diag in Hn. simpl in Hn. inversion Hn. auto.
      * right. split; [lia|].
        replace (i - s)%nat with (S (i - S s)) in Hn by lia. exact Hn.
Qed.

Lemma In_enumerate {X : Type} (l : list X) (i : nat) (x : X) :
  In (i, x) (Py.enumerate l) <-> nth_error l i = Some x.
Proof.
  unfold Py.enumerate. rewrite In_combine_seq, Nat.sub_0_r.
  split; [tauto|]. split; [lia|assumption].
Qed.

(** ** Integrator: validation of the tableau *)

Section TableauValidation.

Lemma index_at {X : Type} (l : list X) (i : Z) (k : nat) (x : X) :
  (if i <? 0 then i + Z.of_nat (length l) else i)%Z = Z.of_nat k ->
  nth_error l k = Some x ->
  Py.index l i = Ok x.
Proof.
  intros Hj Hn. unfold Py.index. cbv zeta. rewrite Hj.
  assert (Hk : (k < length l)%nat) by (apply nth_error_Some; congruence).
  destruct (Z.of_nat k <? 0)%Z eqn:E1; [apply Z.ltb_lt in E1; lia|].
  destruct (Z.of_nat (length l) <=? Z.of_nat k)%Z eqn:E2;
    [apply Z.leb_le in E2; lia|].
  cbv [orb]. rewrite Nat2Z.id, Hn. reflexivity.
Qed.

Lemma index_prev (rows : list (list R)) (i : nat) :
  (i < length rows)%nat ->
  Py.index rows (Z.of_nat i - 1) = Ok (prev_row rows i).
Proof.
  intros Hi. unfold prev_row.
  apply index_at with (k := match i with O => (length rows - 1)%nat | S i' => i' end).
  - destruct (Z.of_nat i - 1 <? 0)%Z eqn:E.
    + apply Z.ltb_lt in E. destruct i; lia.
    + apply Z.ltb_ge in E. destruct i; lia.
  - apply nth_error_nth'. destruct i; lia.
Qed.

Lemma prev_row_In (rows : list (list R)) (i : nat) :
  (i < length rows)%nat -> In (prev_row rows i) rows.
Proof.
  intros Hi. unfold prev_row. apply nth_In. destruct i; lia.
Qed.

(** The test made on one row. *)
Lemma row_check_eq (rows : list (list R)) (i : nat) (line : list R) :
  nth_error rows i = Some line ->
  (prev <- Py.index rows (Z.of_nat i - 1) ;;
   if negb (length line =? length prev)%nat
   then Raise ValueError else Ok tt)
  = if (length line =? length (prev_row rows i))%nat
    then Ok tt else Raise ValueError.
Proof.
  intros Hn. rewrite index_prev.
  - simpl. destruct (length line =? length (prev_row rows i))%nat; reflexivity.
  - apply nth_error_Some. congruence.
Qed.

Lemma adjacent_rows_equal (rows : list (list R)) :
  (forall i, (i < length rows)%nat ->
             length (nth i rows []) = length (prev_row rows i)) ->
  rectangular rows.
Proof.
  intros Hadj.
  assert (H0 : forall i, (i < length rows)%nat ->
                         length (nth i rows []) = length (nth 0%nat rows [])).
  { induction i as [|i IH]; intros Hi; [reflexivity|].
    rewrite (Hadj (S i) Hi). unfold prev_row. apply IH. lia. }
  intros r1 r2 H1 H2.
  destruct (In_nth _ _ [] H1) as (i1 & Hi1 & <-).
  destruct (In_nth _ _ [] H2) as (i2 & Hi2 & <-).
  rewrite (H0 i1 Hi1), (H0 i2 Hi2). reflexivity.
Qed.

Lemma validate_rows_ok (rows : list (list R)) :
  rectangular rows ->
  exists us,
    mapM (fun '(i, line) =>
            prev <- Py.index rows (Z.of_nat i - 1) ;;
            if negb (length line =? length prev)%nat
            then Raise ValueError else Ok tt)
         (Py.enumerate rows) = Ok us.
Proof.
  intros Hrect. exists (map (fun _ => tt) (Py.enumerate rows)).
  apply mapM_pure. intros [i line] Hin.
  apply In_enumerate in Hin. rewrite (row_check_eq rows i line Hin).
  assert (Hlt : (i < length rows)%nat) by (apply nth_error_Some; congruence).
  rewrite (Hrect line (prev_row rows i)).
  - rewrite Nat.eqb_refl. reflexivity.
  - eapply nth_error_In; eauto.
  - apply prev_row_In. exact Hlt.
Qed.

Lemma validate_rows_bad (rows : list (list R)) :
  ~ rectangular rows ->
  mapM (fun '(i, line) =>
          prev <- Py.index rows (Z.of_nat i - 1) ;;
          if negb (length line =? length prev)%nat
          then Raise ValueError else Ok tt)
       (Py.enumerate rows) = Raise ValueError.
Proof.
  intros Hbad.
  match goal with |- ?m = _ => destruct m as [us|e] eqn:Em end.
  - exfalso. apply Hbad. apply adjacent_rows_equal. intros i Hi.
    destruct (nth_error rows i) as [line|] eqn:En;
      [|apply nth_error_None in En; lia].
    destruct (mapM_ok_inv _ _ _ Em (i, line)) as (u & Hu).
    { apply In_enumerate. exact En. }
    rewrite (row_check_eq rows i line En) in Hu.
    rewrite (nth_error_nth _ _ _ En).
    destruct (length line =? length (prev_row rows i))%nat eqn:E;
      [apply Nat.eqb_eq in E; exact E | discriminate].
  - destruct (mapM_raise_inv _ _ _ Em) as ([i line] & Hin & Hx).
    apply In_enumerate in Hin. rewrite (row_check_eq rows i line Hin) in Hx.
    destruct (length line =? length (prev_row rows i))%nat; congruence.
Qed.

Lemma validate_ok (tb : tableau) :
  length (A tb) = length (b tb) -> length (A tb) = length (c tb) ->
  rectangular (A tb) -> ARK.validate tb = Ok tt.
Proof.
  intros Hb Hc Hrect. unfold ARK.validate.
  rewrite <- Hb, <- Hc, !Nat.eqb_refl. simpl.
  destruct (validate_rows_ok (A tb) Hrect) as (us & ->). reflexivity.
Qed.

Lemma validate_bad (tb : tableau) :
  length (A tb) <> length (b tb) \/ length (A tb) <> length (c tb) \/
  ~ rectangular (A tb) ->
  ARK.validate tb = Raise ValueError.
Proof.
  intros H. unfold ARK.validate.
  destruct (negb (length (A tb) =? length (c tb))%nat
            || negb (length (c tb) =? length (b tb))%nat
            || negb (length (A tb) =? length (b tb))%nat) eqn:E; [reflexivity|].
  apply orb_false_iff in E. destruct E as [E E3].
  apply orb_false_iff in E. destruct E as [E1 E2].
  apply negb_false_iff, Nat.eqb_eq in E1, E2, E3.
  destruct H as [H|[H|H]]; try contradiction.
  rewrite (validate_rows_bad _ H). reflexivity.
Qed.

Lemma tableau_shape_ok (tb : tableau) (s : nat) :
  well_formed tb s -> ARK.validate tb = Ok tt.
Proof.
  intros (HA & Hb & Hc & Hrows). apply validate_ok; try congruence.
  intros r1 r2 H1 H2. rewrite (Hrows r1 H1), (Hrows r2 H2). reflexivity.
Qed.

(** C6, as stated, fails: a tableau whose rows have a common length
    different from the stage count is accepted.  [wide_tableau] has 2
    stages and rows of length 3; it passes the validation, and a run over it
    yields its states and ends without any error. *)
Lemma non_square_tableau_accepted :
  ~ well_formed wide_tableau 2 /\
  ARK.validate wide_tableau = Ok tt /\
  snd (ARK.run_simulation wide_integrator) = None /\
  length (fst (ARK.run_simulation wide_integrator)) = 2%nat.
Proof.
  split.
  - intros (_ & _ & _ & H). specialize (H [0; 0; 0]). simpl in H.
    assert (3 = 2)%nat by (apply H; auto). discriminate.
  - repeat split; reflexivity.
Qed.

(** C6 (amended): [run_simulation] raises the configuration error
    [ValueError] before emitting any state whenever [len(A)], [len(b)] and
    [len(c)] are not all equal or two rows of [A] differ in length; whenever
    the three lengths agree and all rows of [A] have one common length
    (equal to the stage count or not) the validation raises no error, in
    particular for a well-formed s-by-s tableau. *)
Theorem tableau_validation :
  forall (KW : Type) (self : ARK.t KW),
    (length (A (ARK.tab self)) <> length (b (ARK.tab self)) \/
     length (A (ARK.tab self)) <> length (c (ARK.tab self)) \/
     ~ rectangular (A (ARK.tab self)) ->
     ARK.run_simulation self = ([], Some ValueError)) /\
    (length (A (ARK.tab self)) = length (b (ARK.tab self)) ->
     length (A (ARK.tab self)) = length (c (ARK.tab self)) ->
     rectangular (A (ARK.tab self)) ->
     ARK.validate (ARK.tab self) = Ok tt) /\
    (forall s, well_formed (ARK.tab self) s ->
     ARK.validate (ARK.tab self) = Ok tt).
Proof.
  intros KW self. split; [|split].
  - intros H. unfold ARK.run_simulation. rewrite (validate_bad _ H). reflexivity.
  - apply validate_ok.
  - intros s Hs. exact (tableau_shape_ok _ s Hs).
Qed.

Lemma tableau_validation_witness :
  ARK.run_simulation
    (ARK.mk (mkTableau [ [1; 2]; [3; 4] ] [1; 2; 4] [1; 2; 3])
            (fun _ y (_ : unit) => Ok y) [0] 1 3%Z 5 tt)
  = ([], Some ValueError) /\
  ARK.run_simulation
    (ARK.mk (mkTableau [ [1; 2]; [3; 4; 3] ] [1; 2] [1; 2])
            (fun _ y (_ : unit) => Ok y) [0] 1 3%Z 5 tt)
  = ([], Some ValueError) /\
  ARK.validate ERK4 = Ok tt.
Proof.
  split; [|split].
  - apply (tableau_validation unit
             (ARK.mk (mkTableau [ [1; 2]; [3; 4] ] [1; 2; 4] [1; 2; 3])
                     (fun _ y _ => Ok y) [0] 1 3%Z 5 tt)).
    left. simpl. discriminate.
  - apply (tableau_validation unit
             (ARK.mk (mkTableau [ [1; 2]; [3; 4; 3] ] [1; 2] [1; 2])
                     (fun _ y _ => Ok y) [0] 1 3%Z 5 tt)).
    right. right. intros H.
    specialize (H [1; 2] [3; 4; 3]). simpl in H.
    assert (2 = 3)%nat by (apply H; auto). discriminate.
  - apply (tableau_validation unit
             (ARK.mk ERK4 (fun _ y _ => Ok y) [0] 1 3%Z 5 tt)) with (s := 4%nat).
    repeat split. intros line Hin. simpl in Hin.
    repeat (destruct Hin as [<-|Hin]; [reflexivity|]). contradiction.
Defined.

End TableauValidation.

(** ** The force model does not read its time argument *)

(** C10: for every state, every mass sequence and any two times [t1] and
    [t2], [n_body(t1, state, masses)] and [n_body(t2, state, masses)] are the
    same outcome, value or exception; so each raises exactly when the other
    does. *)
Theorem n_body_time_independent :
  forall (t1 t2 : R) (state : Vector.t) (masses : list R),
    Physic.n_body t1 state masses = Physic.n_body t2 state masses /\
    (raises (Physic.n_body t1 state masses) <->
     raises (Physic.n_body t2 state masses)).
Proof.
  intros t1 t2 state masses. split; [reflexivity|].
  unfold raises. split; intros H; exact H.
Qed.

(** ** Simulation driver: the checks of the constructor *)

Section SimulatorInit.

Lemma nodup_length_le (l : list nat) :
  (length (nodup Nat.eq_dec l) <= length l)%nat.
Proof.
  induction l as [|x l IH]; simpl; [lia|].
  destruct (in_dec Nat.eq_dec x l); simpl; lia.
Qed.

Lemma nodup_length_NoDup (l : list nat) :
  length (nodup Nat.eq_dec l) = length l <-> NoDup l.
Proof.
  split.
  - induction l as [|x l IH]; simpl; intros H; [constructor|].
    destruct (in_dec Nat.eq_dec x l) as [Hin|Hin]; simpl in H.
    + pose proof (nodup_length_le l). lia.
    + constructor; [exact Hin|]. apply IH. lia.
  - intros H. rewrite (nodup_fixed_point Nat.eq_dec H). reflexivity.
Qed.

Lemma dup_ident_entries (data : list Body) :
  ~ NoDup (map ident data) ->
  exists i j x y,
    i <> j /\ nth_error data i = Some x /\ nth_error data j = Some y /\
    ident x = ident y.
Proof.
  induction data as [|a rest IH]; simpl; intros H.
  - exfalso. apply H. constructor.
  - destruct (in_dec Nat.eq_dec (ident a) (map ident rest)) as [Hin|Hin].
    + apply in_map_iff in Hin. destruct Hin as (y & Hid & Hy).
      apply In_nth_error in Hy. destruct Hy as (j & Hj).
      exists 0%nat, (S j), a, y. repeat split; auto.
    + destruct IH as (i & j & x & y & Hij & Hx & Hy & Hid).
      { intros Hnd. apply H. constructor; assumption. }
      exists (S i), (S j), x, y. repeat split; auto.
Qed.

Lemma entries_dup_ident (data : list Body) (i j : nat) (x y : Body) :
  i <> j -> nth_error data i = Some x -> nth_error data j = Some y ->
  ident x = ident y -> ~ NoDup (map ident data).
Proof.
  intros Hij Hx Hy Hid Hnd. apply Hij.
  rewrite NoDup_nth_error in Hnd. apply Hnd.
  - rewrite length_map. apply nth_error_Some. congruence.
  - rewrite !nth_error_map, Hx, Hy. simpl. congruence.
Qed.

Lemma Req_bool_true (x y : R) : SOLARSimulator.Req_bool x y = true <-> x = y.
Proof.
  unfold SOLARSimulator.Req_bool. destruct (Req_dec_T x y); split; congruence.
Qed.

Lemma zip_all_equal (p q : list R) :
  length p = length q ->
  forallb (fun '(cx, bx) => SOLARSimulator.Req_bool cx bx) (combine p q) = true
  <-> p = q.
Proof.
  revert q. induction p as [|x p IH]; intros [|y q] Hlen; simpl in *;
    try discriminate; [tauto|].
  rewrite andb_true_iff, Req_bool_true, IH by lia.
  split; [intros [-> ->]; reflexivity | intros H; inversion H; auto].
Qed.

Lemma fold_check_pos (data l : list Body) (acc : bool) :
  fold_left (SOLARSimulator.check_pos data) l acc
  = acc && forallb
             (fun x => negb (existsb
                (fun y => negb (BodyM.is_ x y) && SOLARSimulator.same_position x y)
                data)) l.
Proof.
  revert acc. induction l as [|x l IH]; intros acc; simpl.
  - rewrite andb_true_r. reflexivity.
  - rewrite IH. unfold SOLARSimulator.check_pos.
    destruct acc; simpl; [|reflexivity].
    destruct (existsb _ data); reflexivity.
Qed.

(** The first test of the constructor fires exactly on a shared position. *)
Lemma duplicate_test (data : list Body) :
  (forall x, In x data -> body_ok x) -> coherent data ->
  negb (SOLARSimulator.set_size data =? length data)%nat
  || negb (fold_left (SOLARSimulator.check_pos data) data true) = true
  <-> shares_position data.
Proof.
  intros Hok Hco. rewrite orb_true_iff, !negb_true_iff, Nat.eqb_neq. split.
  - intros [Hset|Hfold].
    + unfold SOLARSimulator.set_size in Hset.
      destruct (dup_ident_entries data) as (i & j & x & y & Hij & Hx & Hy & Hid).
      { intros Hnd. apply Hset. rewrite <- (length_map ident data).
        apply nodup_length_NoDup. exact Hnd. }
      exists i, j, x, y. repeat split; auto.
      rewrite (Hco x y); eauto using nth_error_In.
    + rewrite fold_check_pos in Hfold. simpl in Hfold.
      apply not_true_iff_false in Hfold. rewrite forallb_forall in Hfold.
      destruct (forallb_forall
                  (fun x => negb (existsb
                     (fun y => negb (BodyM.is_ x y)
                               && SOLARSimulator.same_position x y) data)) data)
        as [_ Hall].
      assert (Hex : exists x, In x data /\
                 existsb (fun y => negb (BodyM.is_ x y)
                                   && SOLARSimulator.same_position x y) data = true).
      { clear Hall. revert Hfold. generalize data at 1 3 as l.
        induction l as [|a l IH]; intros Hf.
        - exfalso. apply Hf. intros x [].
        - destruct (existsb (fun y => negb (BodyM.is_ a y)
                                      && SOLARSimulator.same_position a y) data) eqn:Ea.
          + exists a. split; [left; reflexivity | exact Ea].
          + destruct IH as (x & Hin & Hx).
            * intros Hl. apply Hf. intros x [<-|Hin]; [rewrite Ea; reflexivity|].
              apply Hl. exact Hin.
            * exists x. split; [right; exact Hin | exact Hx]. }
      destruct Hex as (x & Hinx & Hex). apply existsb_exists in Hex.
      destruct Hex as (y & Hiny & Hxy). apply andb_true_iff in Hxy.
      destruct Hxy as [Hne Hsame]. apply negb_true_iff, Nat.eqb_neq in Hne.
      destruct (In_nth_error _ _ Hinx) as (i & Hi).
      destruct (In_nth_error _ _ Hiny) as (j & Hj).
      exists i, j, x, y. repeat split; auto.
      * intros ->. rewrite Hi in Hj. inversion Hj; subst. apply Hne. reflexivity.
      * apply zip_all_equal; [|exact Hsame].
        destruct (Hok x Hinx) as (_ & -> & _).
        destruct (Hok y Hiny) as (_ & -> & _). reflexivity.
  - intros (i & j & x & y & Hij & Hx & Hy & Hpos).
    destruct (Nat.eq_dec (ident x) (ident y)) as [Hid|Hid].
    + left. unfold SOLARSimulator.set_size. intros Hlen.
      apply (entries_dup_ident data i j x y Hij Hx Hy Hid).
      apply nodup_length_NoDup. rewrite Hlen, length_map. reflexivity.
    + right. rewrite fold_check_pos. simpl.
      apply not_true_iff_false. intros Hall. rewrite forallb_forall in Hall.
      specialize (Hall x (nth_error_In _ _ Hx)).
      apply negb_true_iff in Hall.
      assert (Hy' : existsb (fun y0 => negb (BodyM.is_ x y0)
                               && SOLARSimulator.same_position x y0) data = true).
      { apply existsb_exists. exists y. split; [eapply nth_error_In; eauto|].
        apply andb_true_iff. split.
        - apply negb_true_iff, Nat.eqb_neq. exact Hid.
        - apply zip_all_equal; [congruence | exact Hpos]. }
      congruence.
Qed.

Lemma two_bodies_ok : forall x, In x two_bodies -> body_ok x.
Proof.
  intros x [<-|[<-|[]]]; unfold body_ok; simpl; repeat split; lra.
Qed.

Lemma two_bodies_coherent : coherent two_bodies.
Proof.
  intros x y [<-|[<-|[]]] [<-|[<-|[]]]; simpl; intros H;
    try reflexivity; discriminate.
Qed.

Lemma two_bodies_apart : ~ shares_position two_bodies.
Proof.
  intros (i & j & x & y & Hij & Hx & Hy & Hpos).
  destruct i as [|[|i]]; destruct j as [|[|j]]; simpl in Hx, Hy;
    try (destruct i; discriminate); try (destruct j; discriminate);
    try (exfalso; apply Hij; reflexivity);
    inversion Hx; inversion Hy; subst; simpl in Hpos; inversion Hpos; lra.
Qed.

(** C8: for a sequence of bodies (each satisfying the invariant of its
    class, identities naming objects), constructing [SOLARSimulator] raises
    an error iff two entries of the sequence share a position, or
    [duration <= 0], or [step] is not in (0, duration].  A shared position
    gives the duplicate-position error [BodyError], which is tested first;
    the other two give [ValueError].  With valid inputs the construction
    succeeds and returns an object with empty energy series, empty
    trajectories and no callback invoked: no integration step has run. *)
Theorem simulator_init_preconditions :
  forall (data : list Body) (duration step : Z),
    (forall x, In x data -> body_ok x) ->
    coherent data ->
    (raises (SOLARSimulator.init data duration step) <->
     shares_position data \/ (duration <= 0)%Z \/ ~ (0 < step <= duration)%Z) /\
    (shares_position data ->
     SOLARSimulator.init data duration step = Raise BodyError) /\
    (~ shares_position data ->
     (duration <= 0)%Z \/ ~ (0 < step <= duration)%Z ->
     SOLARSimulator.init data duration step = Raise ValueError) /\
    (~ shares_position data -> (0 < duration)%Z -> (0 < step <= duration)%Z ->
     SOLARSimulator.init data duration step
     = Ok (SOLARSimulator.mk data duration step None [] [])).
Proof.
  intros data duration step Hok Hco.
  pose proof (duplicate_test data Hok Hco) as Hdup.
  unfold SOLARSimulator.init.
  destruct (negb (SOLARSimulator.set_size data =? length data)%nat
            || negb (fold_left (SOLARSimulator.check_pos data) data true)) eqn:Ed.
  - assert (Hs : shares_position data) by (apply Hdup; reflexivity).
    split; [split|split; [|split]].
    + intros _. left. exact Hs.
    + intros _. exists BodyError. reflexivity.
    + reflexivity.
    + intros Hn. contradiction.
    + intros Hn. contradiction.
  - assert (Hs : ~ shares_position data).
    { intros H. apply Hdup in H. discriminate. }
    destruct (duration <=? 0)%Z eqn:E1.
    + apply Z.leb_le in E1. split; [split|split; [|split]].
      * intros _. right. left. exact E1.
      * intros _. exists ValueError. reflexivity.
      * intros H. contradiction.
      * reflexivity.
      * intros _ Hd. lia.
    + apply Z.leb_gt in E1.
      destruct ((step <=? 0)%Z || (duration <? step)%Z) eqn:E2.
      * assert (Hst : ~ (0 < step <= duration)%Z).
        { apply orb_true_iff in E2. destruct E2 as [E2|E2];
            [apply Z.leb_le in E2 | apply Z.ltb_lt in E2]; lia. }
        split; [split|split; [|split]].
        -- intros _. right. right. exact Hst.
        -- intros _. exists ValueError. reflexivity.
        -- intros H. contradiction.
        -- reflexivity.
        -- intros _ _ H. contradiction.
      * apply orb_false_iff in E2. destruct E2 as [E2 E3].
        apply Z.leb_gt in E2. apply Z.ltb_ge in E3.
        split; [split|split; [|split]].
        -- intros (e & He). discriminate.
        -- intros [H|[H|H]]; [contradiction | lia | exfalso; apply H; lia].
        -- intros H. contradiction.
        -- intros _ [H|H]; [lia | exfalso; apply H; lia].
        -- reflexivity.
Qed.

Lemma simulator_init_preconditions_witness :
  SOLARSimulator.init two_bodies 7200 10
  = Ok (SOLARSimulator.mk two_bodies 7200 10 None [] []) /\
  SOLARSimulator.init two_bodies (-50) 10 = Raise ValueError /\
  SOLARSimulator.init two_bodies 50 100 = Raise ValueError.
Proof.
  destruct (simulator_init_preconditions two_bodies 7200 10
              two_bodies_ok two_bodies_coherent) as (_ & _ & _ & H1).
  destruct (simulator_init_preconditions two_bodies (-50) 10
              two_bodies_ok two_bodies_coherent) as (_ & _ & H2 & _).
  destruct (simulator_init_preconditions two_bodies 50 100
              two_bodies_ok two_bodies_coherent) as (_ & _ & H3 & _).
  split; [|split].
  - apply H1; [exact two_bodies_apart | lia | lia].
  - apply H2; [exact two_bodies_apart | left; lia].
  - apply H3; [exact two_bodies_apart | right; lia].
Defined.

End SimulatorInit.

(** ** Lists, ranges and slices *)

Section Lists.

Lemma range_six (k : nat) :
  Py.range 0 (6 * k) 6 = map (fun q => (6 * q)%nat) (seq 0 k).
Proof.
  unfold Py.range.
  replace ((6 * k - 0 + (6 - 1)) / 6)%nat with k.
  - apply map_ext. intros q. lia.
  - apply Nat.div_unique with (r := 5%nat); lia.
Qed.

Lemma range_one (a n : nat) :
  Py.range a n 1 = seq a (n - a).
Proof.
  unfold Py.range. change (1 - 1)%nat with 0%nat.
  rewrite Nat.add_0_r, Nat.div_1_r.
  assert (H : forall m s, map (fun q => (a + 1 * q)%nat) (seq s m) = seq (a + s) m).
  { induction m as [|m IH]; intros s; simpl; [reflexivity|].
    f_equal; [lia|]. rewrite IH. f_equal. lia. }
  rewrite H. f_equal. lia.
Qed.

Lemma combine_map_seq {X : Type} (g : nat -> nat) (l : list X) (d : X) (s : nat) :
  combine (map g (seq s (length l))) l
  = map (fun i => (g i, nth (i - s) l d)) (seq s (length l)).
Proof.
  revert s. induction l as [|x l IH]; intros s; simpl; [reflexivity|].
  rewrite Nat.sub_diag. f_equal. rewrite IH. apply map_ext_in.
  intros i Hi. apply in_seq in Hi.
  replace (i - s)%nat with (S (i - S s)) by lia. reflexivity.
Qed.

Lemma get_slice_ok (v : Vector.t) (a b : nat) :
  (a <= b)%nat -> (b <= length v)%nat ->
  Vector.get_slice v a b = Ok (firstn (b - a) (skipn a v)).
Proof.
  intros Hab Hb. unfold Vector.get_slice.
  rewrite getitem_slice_in_bounds by (unfold Vector.len; lia).
  simpl. rewrite Nat2Z.id. f_equal. f_equal. lia.
Qed.

End Lists.

(** ** Sums and norms *)

Section Norms.

Lemma fold_left_Rplus (l : list R) (a : R) :
  fold_left Rplus l a = a + fold_right Rplus 0 l.
Proof.
  revert a. induction l as [|x l IH]; intros a; simpl; [ring|].
  rewrite IH. ring.
Qed.

Lemma sum_fold_right (l : list R) : Py.sum l = fold_right Rplus 0 l.
Proof.
  unfold Py.sum. rewrite fold_left_Rplus. ring.
Qed.

Lemma big_sum_nil (g : nat -> R) : big_sum g [] = 0.
Proof. reflexivity. Qed.

Lemma big_sum_cons (g : nat -> R) (j : nat) (l : list nat) :
  big_sum g (j :: l) = g j + big_sum g l.
Proof. reflexivity. Qed.

Lemma sum_map (l : list nat) (g : nat -> R) :
  Py.sum (map g l) = big_sum g l.
Proof.
  rewrite sum_fold_right. induction l as [|x l IH]; simpl; [reflexivity|].
  rewrite IH. reflexivity.
Qed.

Lemma squares_nonneg (v : list R) :
  0 <= fold_right (fun x acc => x ^ 2 + acc) 0 v.
Proof.
  induction v as [|x v IH]; cbn [fold_right]; [lra|].
  pose proof (pow2_ge_0 x). lra.
Qed.

Lemma root_two (x : R) : 0 <= x -> root x 2 = sqrt x.
Proof.
  intros Hx. unfold root. destruct (Req_dec_T x 0) as [->|Hne].
  - symmetry. apply sqrt_0.
  - apply Rpower_sqrt. lra.
Qed.

(** [norm(v, 2)] is the Euclidean norm. *)
Lemma norm_two (v : list R) : norm v 2 = Ok (norm2 v).
Proof.
  unfold norm, norm2. change (2 <=? 0)%Z with false. cbv iota.
  assert (Hs : Py.sum (map (fun el => Rabs el ^ Z.to_nat 2) v)
               = fold_right (fun x acc => x ^ 2 + acc) 0 v).
  { rewrite sum_fold_right. change (Z.to_nat 2) with 2%nat.
    induction v as [|x v IH]; [reflexivity|].
    cbn [map fold_right]. rewrite IH, pow2_abs. reflexivity. }
  rewrite Hs, root_two by apply squares_nonneg. reflexivity.
Qed.

End Norms.

(** ** The n-body force model *)

Section NBody.

(** Equality of two three-element lists of reals, componentwise by [ring]. *)
Ltac list3_ring := f_equal; [ring | f_equal; [ring | f_equal; ring]].

Lemma firstn3_skipn (v : list R) (a : nat) :
  (a + 3 <= length v)%nat ->
  firstn 3 (skipn a v)
  = [nth a v 0; nth (a + 1) v 0; nth (a + 2) v 0].
Proof.
  revert v. induction a as [|a IH]; intros v Hlen.
  - destruct v as [|x [|y [|z v]]]; simpl in Hlen; try lia. reflexivity.
  - destruct v as [|x v]; simpl in Hlen; [lia|].
    simpl skipn. rewrite IH by lia. reflexivity.
Qed.

Lemma positive_masses (masses : list R) :
  Forall (fun m => 0 < m) masses -> forallb Physic.positive masses = true.
Proof.
  intros H. apply forallb_forall. rewrite Forall_forall in H.
  intros m Hm. unfold Physic.positive. destruct (Rlt_dec 0 m); auto.
Qed.

Lemma body_init_ok (id : nat) (m : R) (p v : list R) :
  0 < m -> length p = 3%nat -> length v = 3%nat ->
  BodyM.init id m p v None = Ok (mkBody id "@" m p v).
Proof.
  intros Hm Hp Hv. unfold BodyM.init.
  destruct (Rle_dec m 0); [lra|]. rewrite Hp, Hv. reflexivity.
Qed.

(** Rebuilding the bodies of a flat state of the right length succeeds. *)
Lemma bodies_of_state_ok (state masses : list R) :
  Forall (fun m => 0 < m) masses ->
  length state = (6 * length masses)%nat ->
  Physic.bodies_of_state state masses
  = Ok (map (body_at state masses) (seq 0 (length masses))).
Proof.
  intros Hpos Hlen. unfold Physic.bodies_of_state.
  rewrite Hlen, range_six, (combine_map_seq _ masses 0 0).
  rewrite (mapM_pure _
             (fun '(a, m) => mkBody a "@" m
                [nth a state 0; nth (a + 1) state 0; nth (a + 2) state 0]
                [nth (a + 3) state 0; nth (a + 3 + 1) state 0;
                 nth (a + 3 + 2) state 0])).
  - f_equal. rewrite map_map. apply map_ext. intros i.
    unfold body_at, pos_at, vel_at.
    rewrite Nat.sub_0_r, !Nat.add_0_r. reflexivity.
  - intros [a m] Hin. apply in_map_iff in Hin.
    destruct Hin as (i & Heq & Hi). apply pair_equal_spec in Heq.
    destruct Heq as [<- <-]. apply in_seq in Hi.
    rewrite !get_slice_ok by lia.
    replace (6 * i + 3 - 6 * i)%nat with 3%nat by lia.
    replace (6 * i + 6 - (6 * i + 3))%nat with 3%nat by lia.
    rewrite !firstn3_skipn by lia. cbn [bind].
    apply body_init_ok; try reflexivity.
    rewrite Forall_forall in Hpos. apply Hpos, nth_In. lia.
Qed.

(** The contribution of body [j] to component [c] of the acceleration of
    body [i], as the source computes it, is the term of the force law. *)
Lemma accel_step (state masses : list R) (i j : nat) (a0 a1 a2 : R) :
  (r <- get_magnitude (position (body_at state masses i))
                      (position (body_at state masses j)) ;;
   dir <- Np.sub (position (body_at state masses j))
                 (position (body_at state masses i)) ;;
   Vector.add [a0; a1; a2]
     (Np.scale dir ((Physic.G * mass (body_at state masses j)) / r ^ 3)))
  = Ok [a0 + Physic.G * nth j masses 0
               * (pos_at state j 0 - pos_at state i 0) / distance state i j ^ 3;
        a1 + Physic.G * nth j masses 0
               * (pos_at state j 1 - pos_at state i 1) / distance state i j ^ 3;
        a2 + Physic.G * nth j masses 0
               * (pos_at state j 2 - pos_at state i 2) / distance state i j ^ 3].
Proof.
  unfold get_magnitude. cbn [body_at position mass length Nat.eqb negb].
  cbn [Vector.zip_with]. rewrite norm_two. cbn [bind].
  unfold Np.sub, Np.binop. cbn [length Nat.eqb Vector.zip_with bind].
  unfold Np.scale, Vector.add, Vector.len.
  cbn [map length Nat.eqb negb Vector.zip_with].
  change (norm2 [pos_at state j 0 - pos_at state i 0;
                 pos_at state j 1 - pos_at state i 1;
                 pos_at state j 2 - pos_at state i 2])
    with (distance state i j).
  unfold Rdiv. f_equal. list3_ring.
Qed.

Lemma accel_fold (state masses : list R) (i : nat) (js : list nat) :
  forall a0 a1 a2 : R,
    fold_left
      (fun acc other_body =>
         acceleration <- acc ;;
         r <- get_magnitude (position (body_at state masses i))
                            (position other_body) ;;
         dir <- Np.sub (position other_body)
                       (position (body_at state masses i)) ;;
         Vector.add acceleration
           (Np.scale dir ((Physic.G * mass other_body) / r ^ 3)))
      (map (body_at state masses) js) (Ok [a0; a1; a2])
    = Ok [a0 + big_sum (fun j => Physic.G * nth j masses 0
                 * (pos_at state j 0 - pos_at state i 0) / distance state i j ^ 3) js;
          a1 + big_sum (fun j => Physic.G * nth j masses 0
                 * (pos_at state j 1 - pos_at state i 1) / distance state i j ^ 3) js;
          a2 + big_sum (fun j => Physic.G * nth j masses 0
                 * (pos_at state j 2 - pos_at state i 2) / distance state i j ^ 3) js].
Proof.
  induction js as [|j js IH]; intros a0 a1 a2; cbn [map fold_left].
  - rewrite !big_sum_nil, !Rplus_0_r. reflexivity.
  - cbn [bind]. rewrite accel_step, IH, !big_sum_cons. f_equal. list3_ring.
Qed.

(** The acceleration of body [i] among the bodies of a flat state. *)
Lemma get_acceleration_ok (state masses : list R) (i : nat) :
  Physic.get_acceleration
    (exclude BodyM.ne (map (body_at state masses) (seq 0 (length masses)))
             (body_at state masses i))
    (body_at state masses i)
  = Ok [accel_at state masses i 0; accel_at state masses i 1;
        accel_at state masses i 2].
Proof.
  assert (Hex : exclude BodyM.ne
                  (map (body_at state masses) (seq 0 (length masses)))
                  (body_at state masses i)
                = map (body_at state masses) (others (length masses) i)).
  { unfold exclude, others. generalize (seq 0 (length masses)) as l.
    induction l as [|j l IH]; [reflexivity|]. cbn [map filter].
    assert (Hne : BodyM.ne (body_at state masses j) (body_at state masses i)
                  = negb (j =? i)%nat).
    { unfold BodyM.ne, BodyM.is_. cbn [body_at ident]. f_equal.
      destruct (Nat.eqb_spec j i) as [->|Hji].
      - apply Nat.eqb_refl.
      - apply Nat.eqb_neq. lia. }
    rewrite Hne, IH. destruct (negb (j =? i)%nat); reflexivity. }
  rewrite Hex. unfold Physic.get_acceleration.
  rewrite accel_fold. unfold accel_at. rewrite !Rplus_0_l. reflexivity.
Qed.

Lemma concat_fold (args : list (list R)) :
  Vector.concat args = List.concat args.
Proof.
  unfold Vector.concat.
  assert (H : forall acc, fold_left (fun a x => a ++ x) args acc
                          = acc ++ List.concat args).
  { induction args as [|x args IH]; intros acc; simpl.
    - rewrite app_nil_r. reflexivity.
    - rewrite IH, app_assoc. reflexivity. }
  apply H.
Qed.

Lemma n_body_spec_length (state masses : list R) :
  length (n_body_spec state masses) = (6 * length masses)%nat.
Proof.
  unfold n_body_spec. generalize (length_seq (length masses) 0).
  generalize (seq 0 (length masses)) as l. generalize (length masses) as k.
  intros k l. revert k. induction l as [|i l IH]; intros k Hk; simpl in Hk.
  - subst. reflexivity.
  - destruct k as [|k]; [discriminate|]. cbn [flat_map app length].
    rewrite (IH k) by lia. lia.
Qed.

Lemma flat_map_blocks (g : nat -> list R) (l : list nat) (i c : nat) :
  (forall j, length (g j) = 6%nat) -> (i < length l)%nat -> (c < 6)%nat ->
  nth (6 * i + c) (flat_map g l) 0 = nth c (g (nth i l 0%nat)) 0.
Proof.
  intros Hg. revert i. induction l as [|x l IH]; intros i Hi Hc; simpl in Hi; [lia|].
  cbn [flat_map]. destruct i as [|i].
  - rewrite app_nth1 by (rewrite Hg; lia). reflexivity.
  - rewrite app_nth2 by (rewrite Hg; lia). rewrite Hg.
    replace (6 * S i + c - 6)%nat with (6 * i + c)%nat by lia.
    apply IH; lia.
Qed.

(** What [n_body] does on well-formed arguments. *)
Lemma n_body_ok (t : R) (state masses : list R) :
  Forall (fun m => 0 < m) masses ->
  length state = (6 * length masses)%nat ->
  Physic.n_body t state masses = Ok (n_body_spec state masses).
Proof.
  intros Hpos Hlen. unfold Physic.n_body.
  rewrite (positive_masses masses Hpos). cbn [negb].
  rewrite Hlen, Nat.eqb_refl. cbn [negb].
  rewrite <- Hlen, (bodies_of_state_ok state masses Hpos Hlen). cbn [bind].
  rewrite mapM_map.
  rewrite (mapM_pure _
             (fun i => [ [vel_at state i 0; vel_at state i 1; vel_at state i 2]%nat;
                         [accel_at state masses i 0; accel_at state masses i 1;
                          accel_at state masses i 2]%nat ])).
  - cbn [bind]. rewrite concat_fold.
    match goal with
    | |- context [negb (length ?x =? _)%nat] =>
        assert (Hflat : x = n_body_spec state masses)
    end.
    { unfold n_body_spec. generalize (seq 0 (length masses)) as l.
      induction l as [|i l IH]; [reflexivity|].
      cbn [map List.concat flat_map app]. rewrite IH. reflexivity. }
    rewrite Hflat, n_body_spec_length, Hlen, Nat.eqb_refl. reflexivity.
  - intros i _. rewrite get_acceleration_ok. reflexivity.
Qed.

Lemma n_body_mismatch (t : R) (state masses : list R) :
  Forall (fun m => 0 < m) masses ->
  (6 * length masses)%nat <> length state ->
  Physic.n_body t state masses = Raise ValueError.
Proof.
  intros Hpos Hlen. unfold Physic.n_body.
  rewrite (positive_masses masses Hpos). cbn [negb].
  apply Nat.eqb_neq in Hlen. rewrite Hlen. reflexivity.
Qed.

(** C1: for a flat state of length 6k and k strictly positive masses, the
    bodies being at pairwise distinct positions, [n_body] returns a vector of
    the same length 6k which holds, for each body [i] in state order, first
    its velocity, copied through, then its acceleration, the sum over the
    other bodies [j] of [G * m_j * (p_j - p_i) / |p_j - p_i|^3] with
    [G = 6.6743015e-11]; if [6 * len(masses)] differs from the length of the
    state it raises the dimension error [ValueError] instead. *)
Theorem n_body_derivative :
  forall (t : R) (state : Vector.t) (masses : list R),
    Forall (fun m => 0 < m) masses ->
    (length state = (6 * length masses)%nat ->
     distinct_positions state (length masses) ->
     exists next : Vector.t,
       Physic.n_body t state masses = Ok next /\
       length next = length state /\
       next = n_body_spec state masses /\
       forall i c, (i < length masses)%nat -> (c < 3)%nat ->
         nth (6 * i + c) next 0 = vel_at state i c /\
         nth (6 * i + 3 + c) next 0 = accel_at state masses i c) /\
    ((6 * length masses)%nat <> length state ->
     Physic.n_body t state masses = Raise ValueError) /\
    Physic.G = 6.6743015 * / 10 ^ 11.
Proof.
  intros t state masses Hpos. split; [|split].
  - intros Hlen _. exists (n_body_spec state masses).
    split; [apply n_body_ok; assumption|].
    split; [rewrite n_body_spec_length; congruence|].
    split; [reflexivity|].
    intros i c Hi Hc. unfold n_body_spec.
    rewrite <- Nat.add_assoc.
    rewrite !flat_map_blocks by (try reflexivity; try rewrite length_seq; lia).
    rewrite seq_nth by lia. cbn [Nat.add].
    destruct c as [|[|[|c]]]; try lia; split; reflexivity.
  - apply n_body_mismatch. exact Hpos.
  - unfold Physic.G. lra.
Qed.

Lemma two_body_masses_positive : Forall (fun m => 0 < m) two_body_masses.
Proof. repeat constructor; lra. Qed.

Lemma two_body_state_distinct : distinct_positions two_body_state 2.
Proof.
  intros i j Hi Hj Hij. exists 0%nat. split; [lia|].
  destruct i as [|[|i]]; destruct j as [|[|j]]; try lia;
    unfold pos_at, two_body_state; simpl; lra.
Qed.

Lemma n_body_derivative_witness :
  (exists next : Vector.t,
     Physic.n_body 0 two_body_state two_body_masses = Ok next /\
     length next = length two_body_state /\
     next = n_body_spec two_body_state two_body_masses /\
     forall i c, (i < length two_body_masses)%nat -> (c < 3)%nat ->
       nth (6 * i + c) next 0 = vel_at two_body_state i c /\
       nth (6 * i + 3 + c) next 0 = accel_at two_body_state two_body_masses i c) /\
  Physic.n_body 0 [1; 2; 3] two_body_masses = Raise ValueError.
Proof.
  destruct (n_body_derivative 0 two_body_state two_body_masses
              two_body_masses_positive) as (H1 & _ & _).
  destruct (n_body_derivative 0 [1; 2; 3] two_body_masses
              two_body_masses_positive) as (_ & H2 & _).
  split.
  - apply H1; [reflexivity | exact two_body_state_distinct].
  - apply H2. simpl. discriminate.
Defined.

End NBody.

(** ** The Hamiltonian *)

Section Hamiltonian.

Lemma map_seq_nth {X : Type} (l : list X) (d : X) :
  l = map (fun i => nth i l d) (seq 0 (length l)).
Proof.
  induction l as [|x l IH]; [reflexivity|].
  cbn [length]. rewrite <- cons_seq, <- seq_shift. cbn [map nth].
  f_equal. rewrite map_map. exact IH.
Qed.

Lemma enumerate_nth {X : Type} (l : list X) (d : X) :
  Py.enumerate l = map (fun i => (i, nth i l d)) (seq 0 (length l)).
Proof.
  unfold Py.enumerate.
  rewrite <- (map_id (seq 0 (length l))) at 1.
  rewrite (combine_map_seq (fun i => i) l d 0).
  apply map_ext. intros i. rewrite Nat.sub_0_r. reflexivity.
Qed.

Lemma index_nat {X : Type} (l : list X) (j : nat) (d : X) :
  (j < length l)%nat -> Py.index l (Z.of_nat j) = Ok (nth j l d).
Proof.
  intros Hj. apply index_at with (k := j).
  - destruct (Z.of_nat j <? 0)%Z eqn:E; [apply Z.ltb_lt in E; lia | reflexivity].
  - apply nth_error_nth'. exact Hj.
Qed.

Lemma norm2_sub_sym (u v : list R) :
  norm2 (Vector.zip_with Rminus u v) = norm2 (Vector.zip_with Rminus v u).
Proof.
  unfold norm2. f_equal. revert v.
  induction u as [|x u IH]; intros [|y v]; cbn [Vector.zip_with fold_right];
    try reflexivity.
  rewrite IH. ring.
Qed.

Lemma big_sum_app (g : nat -> R) (l1 l2 : list nat) :
  big_sum g (l1 ++ l2) = big_sum g l1 + big_sum g l2.
Proof.
  induction l1 as [|x l1 IH]; cbn [app]; rewrite ?big_sum_cons, ?big_sum_nil.
  - ring.
  - rewrite IH. ring.
Qed.

Lemma big_sum_ext_in (g1 g2 : nat -> R) (l : list nat) :
  (forall j, In j l -> g1 j = g2 j) -> big_sum g1 l = big_sum g2 l.
Proof.
  induction l as [|x l IH]; intros H; [reflexivity|].
  rewrite !big_sum_cons, IH.
  - rewrite (H x) by (left; reflexivity). reflexivity.
  - intros j Hj. apply H. right. exact Hj.
Qed.

Lemma big_sum_zero (l : list nat) : big_sum (fun _ => 0) l = 0.
Proof.
  induction l as [|x l IH]; [reflexivity|]. rewrite big_sum_cons, IH. ring.
Qed.

(** Summing over [range(i+1, k)] counts exactly the indices [j > i]. *)
Lemma big_sum_upper (g : nat -> R) (i k : nat) :
  (i < k)%nat ->
  big_sum g (seq (S i) (k - S i))
  = big_sum (fun j => if (i <? j)%nat then g j else 0) (seq 0 k).
Proof.
  intros Hi. replace k with (S i + (k - S i))%nat at 2 by lia.
  rewrite seq_app, big_sum_app.
  rewrite (big_sum_ext_in _ (fun _ => 0) (seq 0 (S i))).
  - rewrite big_sum_zero, Rplus_0_l. apply big_sum_ext_in.
    intros j Hj. apply in_seq in Hj.
    destruct (Nat.ltb_spec i j); [reflexivity | lia].
  - intros j Hj. apply in_seq in Hj.
    destruct (Nat.ltb_spec i j); [lia | reflexivity].
Qed.

Lemma kinetic_ok (particles : list Body) :
  Physic.get_kinetic_energy_gen (map (fun p => (mass p, velocity p)) particles)
  = Ok (kinetic_energy particles).
Proof.
  unfold Physic.get_kinetic_energy_gen. rewrite mapM_map.
  rewrite (mapM_pure _
             (fun p => norm2 (map (fun x => mass p * x) (velocity p)) ^ 2
                       / (2 * mass p))).
  - cbn [bind]. f_equal. unfold kinetic_energy.
    rewrite (map_seq_nth particles no_body) at 1.
    rewrite map_map, sum_map. reflexivity.
  - intros p _. rewrite norm_two. cbn [bind]. unfold Np.scale.
    rewrite (map_ext (fun x => x * mass p) (fun x => mass p * x))
      by (intros; ring).
    reflexivity.
Qed.

(** The terms gathered for body [i]: one per body [j] of larger index. *)
Lemma pair_terms_ok (particles : list Body) (i : nat) :
  (forall x, In x particles -> body_ok x) ->
  (i < length particles)%nat ->
  mapM (fun j =>
          pj <- Py.index particles (Z.of_nat j) ;;
          d <- get_magnitude (position (nth i particles no_body)) (position pj) ;;
          Ok ((Physic.G * mass (nth i particles no_body) * mass pj) / d))
       (Py.range (i + 1) (length particles) 1)
  = Ok (map (fun j =>
               Physic.G * mass (nth i particles no_body)
                        * mass (nth j particles no_body)
               / norm2 (Vector.zip_with Rminus
                          (position (nth i particles no_body))
                          (position (nth j particles no_body))))
            (seq (S i) (length particles - S i))).
Proof.
  intros Hok Hi. rewrite range_one, Nat.add_1_r.
  apply mapM_pure. intros j Hj. apply in_seq in Hj.
  rewrite (index_nat particles j no_body) by lia. cbn [bind].
  unfold get_magnitude.
  destruct (Hok (nth i particles no_body)) as (_ & Hpi & _);
    [apply nth_In; lia|].
  destruct (Hok (nth j particles no_body)) as (_ & Hpj & _);
    [apply nth_In; lia|].
  rewrite Hpi, Hpj. cbn [Nat.eqb negb].
  rewrite norm_two. cbn [bind]. rewrite norm2_sub_sym. reflexivity.
Qed.

Lemma gravitational_fold (particles : list Body) (l : list nat) :
  (forall x, In x particles -> body_ok x) ->
  (forall i, In i l -> (i < length particles)%nat) ->
  forall a : R,
    fold_left
      (fun acc '(i, p) =>
         u <- acc ;;
         terms <-
           mapM (fun j =>
                   pj <- Py.index particles (Z.of_nat j) ;;
                   d <- get_magnitude (position p) (position pj) ;;
                   Ok ((Physic.G * mass p * mass pj) / d))
                (Py.range (i + 1) (length particles) 1) ;;
         Ok (u + Py.sum terms))
      (map (fun i => (i, nth i particles no_body)) l) (Ok a)
    = Ok (a + big_sum (fun i =>
                 big_sum (fun j =>
                    if (i <? j)%nat
                    then Physic.G * mass (nth i particles no_body)
                                  * mass (nth j particles no_body)
                         / norm2 (Vector.zip_with Rminus
                                    (position (nth i particles no_body))
                                    (position (nth j particles no_body)))
                    else 0)
                   (seq 0 (length particles))) l).
Proof.
  intros Hok. induction l as [|i l IH]; intros Hl a; cbn [map fold_left].
  - rewrite big_sum_nil, Rplus_0_r. reflexivity.
  - cbn [bind]. rewrite (pair_terms_ok particles i Hok) by (apply Hl; left; reflexivity).
    cbn [bind]. rewrite sum_map, IH by (intros; apply Hl; right; assumption).
    rewrite big_sum_cons, <- big_sum_upper by (apply Hl; left; reflexivity).
    f_equal. ring.
Qed.

Lemma gravitational_ok (particles : list Body) :
  (forall x, In x particles -> body_ok x) ->
  Physic.get_gravitational_energy particles = Ok (potential_energy particles).
Proof.
  intros Hok. unfold Physic.get_gravitational_energy.
  rewrite (enumerate_nth particles no_body).
  rewrite (gravitational_fold particles _ Hok)
    by (intros i Hi; apply in_seq in Hi; lia).
  cbn [bind]. unfold potential_energy. rewrite Rplus_0_l. reflexivity.
Qed.

Lemma hamiltonian_value (particles : list Body) :
  (forall x, In x particles -> body_ok x) ->
  Physic.hamiltonian particles
  = Ok (potential_energy particles + kinetic_energy particles).
Proof.
  intros Hok. unfold Physic.hamiltonian.
  rewrite (gravitational_ok particles Hok). cbn [bind].
  rewrite kinetic_ok. reflexivity.
Qed.

(** C5: for a non-empty sequence of bodies (each satisfying the invariant
    of its class: positive mass, three-dimensional position and velocity) at
    pairwise distinct positions, [hamiltonian] returns the total kinetic
    energy, the sum over the bodies of [|m_i v_i|^2 / (2 m_i)], plus the total
    potential energy, minus the sum over the pairs [i < j] of
    [G m_i m_j / |p_i - p_j|], each unordered pair being counted once. *)
Theorem hamiltonian_energy :
  forall particles : list Body,
    particles <> [] ->
    (forall x, In x particles -> body_ok x) ->
    apart particles ->
    Physic.hamiltonian particles
    = Ok (kinetic_energy particles + potential_energy particles).
Proof.
  intros particles _ Hok _. rewrite (hamiltonian_value particles Hok).
  f_equal. ring.
Qed.

Lemma two_bodies_distinct : apart two_bodies.
Proof.
  intros i j x y Hij Hx Hy Hpos.
  apply two_bodies_apart. exists i, j, x, y. auto.
Qed.

Lemma hamiltonian_energy_witness :
  Physic.hamiltonian two_bodies
  = Ok (kinetic_energy two_bodies + potential_energy two_bodies).
Proof.
  apply (hamiltonian_energy two_bodies).
  - discriminate.
  - exact two_bodies_ok.
  - exact two_bodies_distinct.
Defined.

End Hamiltonian.

(** ** Vector arithmetic of the integrator *)

Section VectorArithmetic.

Lemma mul_map (v : Vector.t) (a : R) :
  Vector.mul v a = map (fun x => x * a) v.
Proof.
  unfold Vector.mul.
  assert (H : forall acc, fold_left (fun acc x => acc ++ [x * a]) v acc
                          = acc ++ map (fun x => x * a) v).
  { induction v as [|x v IH]; intros acc; simpl.
    - rewrite app_nil_r. reflexivity.
    - rewrite IH, <- app_assoc. reflexivity. }
  apply H.
Qed.

Lemma mul_smul (v : Vector.t) (a : R) : Vector.mul v a = smul a v.
Proof.
  rewrite mul_map. unfold smul. apply map_ext. intros x. ring.
Qed.

Lemma smul_length (a : R) (v : list R) : length (smul a v) = length v.
Proof. apply length_map. Qed.

Lemma vadd_length (u v : list R) :
  length u = length v -> length (vadd u v) = length u.
Proof.
  unfold vadd. revert v. induction u as [|x u IH]; intros [|y v] H;
    simpl in *; try congruence. f_equal. apply IH. lia.
Qed.

Lemma vadd_assoc (u v w : list R) : vadd u (vadd v w) = vadd (vadd u v) w.
Proof.
  unfold vadd. revert v w.
  induction u as [|x u IH]; intros [|y v] [|z w]; simpl; try reflexivity.
  rewrite IH. f_equal. ring.
Qed.

Lemma vadd_comm (u v : list R) : vadd u v = vadd v u.
Proof.
  unfold vadd. revert v.
  induction u as [|x u IH]; intros [|y v]; simpl; try reflexivity.
  rewrite IH. f_equal. ring.
Qed.

Lemma vadd_zeros (y : list R) : vadd y (repeat 0 (length y)) = y.
Proof.
  unfold vadd. induction y as [|x y IH]; simpl; [reflexivity|].
  rewrite IH. f_equal. ring.
Qed.

Lemma vsum_length (d : nat) (vs : list (list R)) :
  Forall (fun v => length v = d) vs -> length (vsum d vs) = d.
Proof.
  unfold vsum. induction 1 as [|v vs Hv _ IH]; cbn [fold_right].
  - apply repeat_length.
  - rewrite vadd_length; congruence.
Qed.

Lemma np_add_same (a x : list R) :
  length a = length x -> Np.add a x = Ok (vadd a x).
Proof.
  intros H. unfold Np.add, Np.binop. rewrite H, Nat.eqb_refl. reflexivity.
Qed.

Lemma np_fold (d : nat) (vs : list (list R)) :
  Forall (fun v => length v = d) vs ->
  forall z, length z = d ->
    fold_left (fun acc x => a <- acc ;; Np.add a x) vs (Ok z)
    = Ok (fold_left vadd vs z).
Proof.
  induction 1 as [|v vs Hv _ IH]; intros z Hz; cbn [fold_left]; [reflexivity|].
  cbn [bind]. rewrite np_add_same by congruence.
  apply IH. rewrite vadd_length; congruence.
Qed.

(** The private [__sum] on a non-empty family of vectors of dimension [d]. *)
Lemma ark_sum_ok (d : nat) (vs : list (list R)) :
  vs <> [] -> Forall (fun v => length v = d) vs ->
  ARK.sum vs = Ok (vsum d vs).
Proof.
  intros Hne Hall. unfold ARK.sum. destruct vs as [|v0 vs0] eqn:E; [congruence|].
  rewrite <- E in *. unfold Np.zeros.
  assert (Hlast : length (@last Vector.t vs []) = d).
  { rewrite Forall_forall in Hall. apply Hall.
    destruct (exists_last Hne) as (l & x & ->). rewrite last_last.
    apply in_or_app. right. left. reflexivity. }
  rewrite Hlast, (np_fold d vs Hall) by apply repeat_length.
  unfold vsum. f_equal. apply fold_symmetric.
  - intros x y z. apply vadd_assoc.
  - intros y. apply vadd_comm.
Qed.

(** [self.__y0 + self.__sum(vectors)] is the mathematical [y + Sum vs]. *)
Lemma add_sum (y : Vector.t) (vs : list (list R)) :
  Forall (fun v => length v = length y) vs ->
  (s <- ARK.sum vs ;; Vector.add y s) = Ok (vadd y (vsum (length y) vs)).
Proof.
  intros Hall. destruct vs as [|v0 vs0] eqn:E.
  - cbn. unfold vsum. cbn [fold_right]. rewrite vadd_zeros. reflexivity.
  - rewrite <- E in *. rewrite (ark_sum_ok (length y) vs) by (subst; auto; discriminate).
    cbn [bind]. unfold Vector.add, Vector.len.
    rewrite (vsum_length _ _ Hall).
    destruct (length y =? 0)%nat eqn:E0.
    + apply Nat.eqb_eq in E0. destruct y; [|discriminate].
      reflexivity.
    + rewrite Nat.eqb_refl. reflexivity.
Qed.

Lemma add_sum_then {B : Type} (y : Vector.t) (vs : list (list R))
  (k : Vector.t -> result B) :
  Forall (fun v => length v = length y) vs ->
  (s <- ARK.sum vs ;; y' <- Vector.add y s ;; k y')
  = k (vadd y (vsum (length y) vs)).
Proof.
  intros Hall. pose proof (add_sum y vs Hall) as H.
  destruct (ARK.sum vs) as [sv|e]; cbn [bind] in *; [|discriminate].
  rewrite H. reflexivity.
Qed.

End VectorArithmetic.

(** ** One step of the explicit Runge-Kutta integrator *)

Section RKStep.

Context {KW : Type}.
Variable self : ARK.t KW.
Variable s : nat.
Hypothesis Hwf : well_formed (ARK.tab self) s.
Hypothesis Hf :
  preserves_dim (ARK.func self) (ARK.f_kwargs self) (length (ARK.y0 self)).

Let tb := ARK.tab self.
Let y := ARK.y0 self.
Let d := length (ARK.y0 self).

(** Stage [i] of the list [ks] obeys the stage equation. *)
Let stage_ok (ks : list (list R)) (i : nat) : Prop :=
  exists v,
    ARK.func self (ARK.current_t self + nth i (c tb) 0 * ARK.h self)
             (vadd y (lincomb d (A_at tb i) ks i)) (ARK.f_kwargs self) = Ok v /\
    nth i ks [] = smul (ARK.h self) v.

Lemma A_get_ok (i j : nat) :
  (i < s)%nat -> (j < s)%nat -> ARK.A_get tb i j = Ok (A_at tb i j).
Proof.
  intros Hi Hj. destruct Hwf as (HA & _ & _ & Hrows).
  unfold ARK.A_get, A_at. fold tb in HA, Hrows.
  rewrite (nth_error_nth' (A tb) [] (n := i)) by lia.
  rewrite (nth_error_nth' (nth i (A tb) []) 0 (n := j)); [reflexivity|].
  rewrite Hrows; [exact Hj|]. apply nth_In. lia.
Qed.

Lemma stage_terms (i : nat) (k_list : list Vector.t) :
  (i < s)%nat -> (length k_list <= i)%nat ->
  mapM (fun '(j, k_i) => a <- ARK.A_get tb i j ;; Ok (Vector.mul k_i a))
       (Py.enumerate k_list)
  = Ok (map (fun j => smul (A_at tb i j) (nth j k_list []))
            (seq 0 (length k_list))).
Proof.
  intros Hi Hk. rewrite (enumerate_nth k_list []), mapM_map.
  apply mapM_pure. intros j Hj. apply in_seq in Hj.
  rewrite A_get_ok by lia. cbn [bind]. rewrite mul_smul. reflexivity.
Qed.

Lemma lincomb_ext (coef : nat -> R) (ks ks' : list (list R)) (n : nat) :
  (forall j, (j < n)%nat -> nth j ks [] = nth j ks' []) ->
  lincomb d coef ks n = lincomb d coef ks' n.
Proof.
  intros H. unfold lincomb. f_equal. apply map_ext_in.
  intros j Hj. apply in_seq in Hj. rewrite H by lia. reflexivity.
Qed.

Lemma lincomb_dims (coef : nat -> R) (ks : list (list R)) (n : nat) :
  Forall (fun v => length v = d) ks -> (n <= length ks)%nat ->
  Forall (fun v => length v = d)
         (map (fun j => smul (coef j) (nth j ks [])) (seq 0 n)).
Proof.
  intros Hall Hn. apply Forall_forall. intros v Hv. apply in_map_iff in Hv.
  destruct Hv as (j & <- & Hj). apply in_seq in Hj. rewrite smul_length.
  rewrite Forall_forall in Hall. apply Hall, nth_In. lia.
Qed.

Lemma stage_ok_extend (ks more : list (list R)) (i : nat) :
  (i < length ks)%nat -> stage_ok ks i -> stage_ok (ks ++ more) i.
Proof.
  intros Hi (v & Hv & Hk). exists v. split.
  - rewrite (lincomb_ext _ (ks ++ more) ks); [exact Hv|].
    intros j Hj. apply app_nth1. lia.
  - rewrite app_nth1 by exact Hi. exact Hk.
Qed.

(** The inner loop computes the stages one after the other, each from the
    stages computed before it. *)
Lemma stages_ok (rest : list R) :
  forall (done : list R) (k_list : list Vector.t),
    c tb = done ++ rest ->
    length k_list = length done ->
    Forall (fun v => length v = d) k_list ->
    (forall i, (i < length k_list)%nat -> stage_ok k_list i) ->
    exists ks,
      ARK.stages self (combine (seq (length done) (length rest)) rest) k_list
      = Ok ks /\
      length ks = s /\
      Forall (fun v => length v = d) ks /\
      forall i, (i < s)%nat -> stage_ok ks i.
Proof.
  assert (Hc : length (c tb) = s) by (destruct Hwf as (_ & _ & Hc & _); exact Hc).
  induction rest as [|c_i rest IH]; intros done k_list Hsplit Hlen Hdims Hst.
  - exists k_list. rewrite app_nil_r in Hsplit.
    assert (length k_list = s) by (rewrite Hlen, <- Hsplit; exact Hc).
    repeat split; try assumption. intros i Hi. apply Hst. lia.
  - assert (Hi : (length done < s)%nat).
    { rewrite <- Hc, Hsplit, length_app. simpl. lia. }
    assert (Hci : c_i = nth (length done) (c tb) 0).
    { rewrite Hsplit, app_nth2, Nat.sub_diag by lia. reflexivity. }
    cbn [length seq combine ARK.stages].
    fold tb. rewrite stage_terms by lia. cbn [bind].
    rewrite add_sum_then
      by (apply (lincomb_dims _ k_list (length k_list));
          [exact Hdims | lia]).
    rewrite Hlen.
    change (vsum (length (ARK.y0 self))
              (map (fun j => smul (A_at tb (length done) j) (nth j k_list []))
                   (seq 0 (length done))))
      with (lincomb d (A_at tb (length done)) k_list (length done)).
    destruct (Hf (ARK.current_t self + c_i * ARK.h self)
                 (vadd y (lincomb d (A_at tb (length done)) k_list (length done))))
      as (v & Hv & Hvlen).
    { rewrite vadd_length; [reflexivity|]. unfold lincomb.
      rewrite vsum_length; [reflexivity|].
      apply lincomb_dims; [exact Hdims | lia]. }
    fold y. rewrite Hv. cbn [bind].
    destruct (IH (done ++ [c_i]) (k_list ++ [Vector.mul v (ARK.h self)]))
      as (ks & Hks & Hkl & Hkd & Hko).
    + rewrite <- app_assoc. exact Hsplit.
    + rewrite !length_app, Hlen. reflexivity.
    + apply Forall_app. split; [exact Hdims|]. constructor; [|constructor].
      rewrite mul_smul, smul_length. exact Hvlen.
    + intros i Hlt. rewrite length_app in Hlt. simpl in Hlt.
      destruct (Nat.eq_dec i (length k_list)) as [->|Hne].
      * exists v. rewrite Hlen, <- Hci. split.
        -- rewrite (lincomb_ext _ _ k_list); [exact Hv|].
           intros j Hj. apply app_nth1. lia.
        -- rewrite app_nth2, Hlen, Nat.sub_diag by lia. apply mul_smul.
      * apply stage_ok_extend; [lia|]. apply Hst. lia.
    + exists ks. rewrite length_app, Nat.add_1_r in Hks.
      repeat split; assumption.
Qed.

Lemma combine_nth_seq (l1 : list R) (l2 : list (list R)) :
  length l1 = length l2 ->
  combine l1 l2 = map (fun i => (nth i l1 0, nth i l2 [])) (seq 0 (length l1)).
Proof.
  intros H. rewrite (map_seq_nth (combine l1 l2) (0, [])) at 1.
  rewrite length_combine, <- H, Nat.min_id. apply map_ext.
  intros i. apply combine_nth. exact H.
Qed.

(** One iteration of the outer loop succeeds and performs one explicit
    Runge-Kutta step. *)
Lemma step_ok :
  exists y',
    ARK.step self
    = Ok (ARK.mk tb (ARK.func self) y' (ARK.h self) (ARK.n self)
                 (ARK.current_t self + ARK.h self) (ARK.f_kwargs self)) /\
    length y' = d /\
    rk_step_spec tb (ARK.func self) (ARK.f_kwargs self) (ARK.h self)
                 (ARK.current_t self) y y'.
Proof.
  destruct Hwf as (_ & Hb & Hc & _). fold tb in Hb, Hc.
  destruct (stages_ok (c tb) [] []) as (ks & Hks & Hkl & Hkd & Hko);
    try reflexivity; [constructor | intros i Hi; simpl in Hi; lia |].
  exists (vadd y (lincomb d (fun i => nth i (b tb) 0) ks s)).
  split; [|split].
  - unfold ARK.step, Py.enumerate. fold tb. cbn [length] in Hks.
    rewrite Hks. cbn [bind].
    rewrite (combine_nth_seq (b tb) ks) by congruence.
    rewrite map_map, Hb.
    rewrite (map_ext _ (fun i => smul (nth i (b tb) 0) (nth i ks [])))
      by (intros i; apply mul_smul).
    rewrite add_sum_then
      by (apply (lincomb_dims _ ks s); [exact Hkd | lia]).
    reflexivity.
  - rewrite vadd_length; [reflexivity|]. unfold lincomb.
    rewrite vsum_length; [reflexivity|].
    apply lincomb_dims; [exact Hkd | lia].
  - exists ks. rewrite Hc. split; [exact Hkl|]. split; [|reflexivity].
    intros i Hi. apply Hko. exact Hi.
Qed.

End RKStep.

(** ** The run of the integrator *)

Section RKRun.

Context {KW : Type}.

Lemma loop_ok (s : nat) (iters : nat) :
  forall self : ARK.t KW,
    well_formed (ARK.tab self) s ->
    preserves_dim (ARK.func self) (ARK.f_kwargs self) (length (ARK.y0 self)) ->
    exists ys,
      ARK.loop iters self = (ys, None) /\
      length ys = iters /\
      forall m, (m < iters)%nat ->
        exists before after,
          ARK.iter_step m self = Ok before /\
          ARK.iter_step (S m) self = Ok after /\
          nth m (ARK.y0 self :: ys) [] = ARK.y0 before /\
          nth_error ys m = Some (ARK.y0 after) /\
          ARK.current_t before = ARK.current_t self + INR m * ARK.h self /\
          rk_step_spec (ARK.tab self) (ARK.func self) (ARK.f_kwargs self)
                       (ARK.h self) (ARK.current_t before)
                       (ARK.y0 before) (ARK.y0 after).
Proof.
  induction iters as [|iters IH]; intros self Hwf Hf.
  - exists []. repeat split. intros m Hm. lia.
  - destruct (step_ok self s Hwf Hf) as (y' & Hstep & Hlen & Hspec).
    set (self1 := ARK.mk (ARK.tab self) (ARK.func self) y' (ARK.h self)
                         (ARK.n self) (ARK.current_t self + ARK.h self)
                         (ARK.f_kwargs self)) in *.
    destruct (IH self1) as (ys & Hloop & Hys & Hall).
    { exact Hwf. }
    { cbn [self1 ARK.func ARK.f_kwargs ARK.y0]. rewrite Hlen. exact Hf. }
    exists (y' :: ys). cbn [ARK.loop]. rewrite Hstep, Hloop.
    split; [reflexivity|]. split; [simpl; congruence|].
    intros m Hm. destruct m as [|m].
    + exists self, self1. cbn [ARK.iter_step bind]. rewrite Hstep.
      repeat split; try reflexivity.
      * simpl. ring.
      * exact Hspec.
    + destruct (Hall m) as (before & after & Hb & Ha & Hn & Hne & Ht & Hs);
        [lia|].
      exists before, after.
      split; [cbn [ARK.iter_step]; rewrite Hstep; exact Hb|].
      split; [cbn [ARK.iter_step]; rewrite Hstep; exact Ha|].
      split; [exact Hn|]. split; [exact Hne|]. split; [|exact Hs].
      rewrite Ht, S_INR. cbn [self1 ARK.current_t ARK.h]. ring.
Qed.

Lemma loop_dims (s : nat) (iters : nat) :
  forall (self : ARK.t KW) (ys : list Vector.t) (r : option exn),
    well_formed (ARK.tab self) s ->
    preserves_dim (ARK.func self) (ARK.f_kwargs self) (length (ARK.y0 self)) ->
    ARK.loop iters self = (ys, r) ->
    Forall (fun v => length v = length (ARK.y0 self)) ys.
Proof.
  induction iters as [|iters IH]; intros self ys r Hwf Hf Hloop.
  - inversion Hloop. constructor.
  - destruct (step_ok self s Hwf Hf) as (y' & Hstep & Hlen & _).
    cbn [ARK.loop] in Hloop. rewrite Hstep in Hloop.
    destruct (ARK.loop iters _) as [ys' r'] eqn:E. inversion Hloop; subst.
    constructor; [exact Hlen|].
    apply IH in E; [| exact Hwf | cbn [ARK.func ARK.f_kwargs ARK.y0];
                                  rewrite Hlen; exact Hf].
    cbn [ARK.y0] in E. rewrite Hlen in E. exact E.
Qed.

Lemma init_ok (no_kwargs : KW) (tb : tableau)
  (f : R -> Vector.t -> KW -> result Vector.t) (y : Vector.t) (t0 tn : R) (n : Z) :
  (1 <= n)%Z -> t0 <> tn ->
  ARK.init no_kwargs tb f y t0 tn n
  = Ok (ARK.mk tb f y ((tn - t0) / IZR n) n t0 no_kwargs).
Proof.
  intros Hn Ht. unfold ARK.init.
  destruct (Req_dec_T (t0 - tn) 0) as [E|_]; [exfalso; apply Ht; lra|].
  destruct (n <=? 0)%Z eqn:E; [apply Z.leb_le in E; lia | reflexivity].
Qed.

(** A well-formed integrator over a dimension-preserving derivative runs to
    completion. *)
Lemma run_ok (s : nat) (self : ARK.t KW) :
  (0 <= ARK.n self)%Z ->
  well_formed (ARK.tab self) s ->
  preserves_dim (ARK.func self) (ARK.f_kwargs self) (length (ARK.y0 self)) ->
  exists ys,
    ARK.run_simulation self = (ys, None) /\
    length ys = (Z.to_nat (ARK.n self) + 1)%nat /\
    forall m, (m < length ys)%nat ->
      exists before after,
        ARK.iter_step m self = Ok before /\
        ARK.iter_step (S m) self = Ok after /\
        nth m (ARK.y0 self :: ys) [] = ARK.y0 before /\
        nth_error ys m = Some (ARK.y0 after) /\
        ARK.current_t before = ARK.current_t self + INR m * ARK.h self /\
        rk_step_spec (ARK.tab self) (ARK.func self) (ARK.f_kwargs self)
                     (ARK.h self) (ARK.current_t before)
                     (ARK.y0 before) (ARK.y0 after).
Proof.
  intros Hn Hwf Hf. unfold ARK.run_simulation.
  rewrite (tableau_shape_ok (ARK.tab self) s Hwf).
  destruct (loop_ok s (Z.to_nat (ARK.n self + 1)) self Hwf Hf)
    as (ys & Hloop & Hlen & Hall).
  exists ys. split; [exact Hloop|]. split; [rewrite Hlen; lia|].
  intros m Hm. apply Hall. lia.
Qed.

Lemma run_dims (s : nat) (self : ARK.t KW) (ys : list Vector.t) (r : option exn) :
  well_formed (ARK.tab self) s ->
  preserves_dim (ARK.func self) (ARK.f_kwargs self) (length (ARK.y0 self)) ->
  ARK.run_simulation self = (ys, r) ->
  Forall (fun v => length v = length (ARK.y0 self)) ys.
Proof.
  intros Hwf Hf. unfold ARK.run_simulation.
  rewrite (tableau_shape_ok (ARK.tab self) s Hwf). apply loop_dims with (s := s);
    assumption.
Qed.

End RKRun.

(** ** Statements about the integrator *)

Section Integrator.

Lemma erk4_well_formed : well_formed ERK4 4.
Proof.
  repeat split. intros line Hin. simpl in Hin.
  repeat (destruct Hin as [<-|Hin]; [reflexivity|]). contradiction.
Qed.

Lemma test_f_preserves : preserves_dim test_f tt 1.
Proof.
  intros t y _. exists [t + nth 0 y 0]. split; reflexivity.
Qed.

(** C2: an explicit Runge-Kutta stepper built over a valid s-stage tableau
    (A, b, c), with step count [n >= 1] and [t0 <> tn], and run with the
    keyword arguments [kw] over a derivative [f] that maps states of the
    dimension of [y] to vectors of that dimension, emits states each of which
    is obtained from the previous one (the initial [y] for the first) by one
    step of size [h = (tn - t0) / n] at time [t0 + m h]: there are stages
    [k_i = h . f(t + c[i] h, y + Sum_{j<i} A[i,j] . k_j, kw)] for
    [i = 0 .. s-1], each using only the stages before it, and the state
    emitted is [y + Sum_{i<s} b[i] . k_i]; every call of [f] receives the
    same [kw]. *)
Theorem rk_step_formula :
  forall (KW : Type) (no_kwargs kw : KW) (tb : tableau) (s : nat)
         (f : R -> Vector.t -> KW -> result Vector.t)
         (y : Vector.t) (t0 tn : R) (n : Z),
    (1 <= n)%Z -> t0 <> tn ->
    well_formed tb s ->
    preserves_dim f kw (length y) ->
    exists self ys,
      ARK.init no_kwargs tb f y t0 tn n = Ok self /\
      ARK.h self = (tn - t0) / IZR n /\
      ARK.run_simulation (ARK.set_func_kwargs self kw) = (ys, None) /\
      forall m, (m < length ys)%nat ->
        rk_step_spec tb f kw ((tn - t0) / IZR n)
                     (t0 + INR m * ((tn - t0) / IZR n))
                     (nth m (y :: ys) []) (nth m ys []).
Proof.
  intros KW no_kwargs kw tb s f y t0 tn n Hn Ht Hwf Hf.
  exists (ARK.mk tb f y ((tn - t0) / IZR n) n t0 no_kwargs).
  destruct (run_ok s (ARK.set_func_kwargs
                        (ARK.mk tb f y ((tn - t0) / IZR n) n t0 no_kwargs) kw))
    as (ys & Hrun & Hlen & Hall); [simpl; lia | exact Hwf | exact Hf |].
  exists ys. split; [apply init_ok; assumption|]. split; [reflexivity|].
  split; [exact Hrun|]. intros m Hm.
  destruct (Hall m Hm) as (before & after & _ & _ & Hy & Hy' & Ht' & Hspec).
  cbn [ARK.set_func_kwargs ARK.tab ARK.func ARK.f_kwargs ARK.h ARK.y0
       ARK.current_t] in Hy, Ht', Hspec.
  rewrite Hy, (nth_error_nth _ _ _ Hy'), <- Ht'. exact Hspec.
Qed.

Lemma rk_step_formula_witness :
  exists self ys,
    ARK.init tt ERK4 test_f [0] 5 10 3 = Ok self /\
    ARK.h self = (10 - 5) / IZR 3 /\
    ARK.run_simulation (ARK.set_func_kwargs self tt) = (ys, None) /\
    forall m, (m < length ys)%nat ->
      rk_step_spec ERK4 test_f tt ((10 - 5) / IZR 3)
                   (5 + INR m * ((10 - 5) / IZR 3))
                   (nth m ([0] :: ys) []) (nth m ys []).
Proof.
  apply (rk_step_formula unit tt tt ERK4 4 test_f [0] 5 10 3).
  - lia.
  - lra.
  - exact erk4_well_formed.
  - exact test_f_preserves.
Defined.

(** C3: an integrator constructed with step count [n >= 1] and [t0 <> tn]
    over a well-formed tableau (and a derivative that maps states of the
    dimension of [y0] to vectors of that dimension) is constructed without
    error, and its [run_simulation] yields exactly [n + 1] states and then
    stops without an exception; the element of index [m] is the state after
    [m + 1] updates, so the initial state is not emitted and each element is
    one update further than the one before. *)
Theorem rk_run_length :
  forall (KW : Type) (no_kwargs kw : KW) (tb : tableau) (s : nat)
         (f : R -> Vector.t -> KW -> result Vector.t)
         (y : Vector.t) (t0 tn : R) (n : Z),
    (1 <= n)%Z -> t0 <> tn ->
    well_formed tb s ->
    preserves_dim f kw (length y) ->
    exists self ys,
      ARK.init no_kwargs tb f y t0 tn n = Ok self /\
      ARK.run_simulation (ARK.set_func_kwargs self kw) = (ys, None) /\
      length ys = (Z.to_nat n + 1)%nat /\
      forall m, (m < length ys)%nat ->
        exists after,
          ARK.iter_step (S m) (ARK.set_func_kwargs self kw) = Ok after /\
          nth_error ys m = Some (ARK.y0 after).
Proof.
  intros KW no_kwargs kw tb s f y t0 tn n Hn Ht Hwf Hf.
  exists (ARK.mk tb f y ((tn - t0) / IZR n) n t0 no_kwargs).
  destruct (run_ok s (ARK.set_func_kwargs
                        (ARK.mk tb f y ((tn - t0) / IZR n) n t0 no_kwargs) kw))
    as (ys & Hrun & Hlen & Hall); [simpl; lia | exact Hwf | exact Hf |].
  exists ys. split; [apply init_ok; assumption|].
  split; [exact Hrun|]. split; [exact Hlen|]. intros m Hm.
  destruct (Hall m Hm) as (before & after & _ & Ha & _ & Hy' & _).
  exists after. split; assumption.
Qed.

Lemma rk_run_length_witness :
  exists self ys,
    ARK.init tt ERK4 test_f [0] 5 10 3 = Ok self /\
    ARK.run_simulation (ARK.set_func_kwargs self tt) = (ys, None) /\
    length ys = (Z.to_nat 3 + 1)%nat /\
    forall m, (m < length ys)%nat ->
      exists after,
        ARK.iter_step (S m) (ARK.set_func_kwargs self tt) = Ok after /\
        nth_error ys m = Some (ARK.y0 after).
Proof.
  apply (rk_run_length unit tt tt ERK4 4 test_f [0] 5 10 3).
  - lia.
  - lra.
  - exact erk4_well_formed.
  - exact test_f_preserves.
Defined.

End Integrator.

(** ** The simulation driver *)

Section Driver.

Lemma vector_get_ok (v : Vector.t) (j : nat) :
  (j < length v)%nat -> Vector.get v j = Ok (nth j v 0).
Proof.
  intros Hj. unfold Vector.get, Vector.getitem, Vector.len.
  destruct (Z.of_nat (length v) <=? Z.of_nat j)%Z eqn:E;
    [apply Z.leb_le in E; lia|].
  rewrite (index_nat v j 0 Hj). reflexivity.
Qed.

Lemma set_nth_length {X : Type} (l : list X) (i : nat) (x : X) :
  (i < length l)%nat -> length (SOLARSimulator.set_nth l i x) = length l.
Proof.
  intros Hi. unfold SOLARSimulator.set_nth.
  rewrite length_app, length_firstn. cbn [length]. rewrite length_skipn. lia.
Qed.

Lemma nth_error_set_nth {X : Type} (l : list X) (i j : nat) (x : X) :
  (i < length l)%nat ->
  nth_error (SOLARSimulator.set_nth l i x) j
  = if (j =? i)%nat then Some x else nth_error l j.
Proof.
  intros Hi. unfold SOLARSimulator.set_nth.
  assert (Hf : length (firstn i l) = i) by (rewrite length_firstn; lia).
  destruct (Nat.eqb_spec j i) as [->|Hne].
  - rewrite nth_error_app2 by lia. rewrite Hf, Nat.sub_diag. reflexivity.
  - destruct (Nat.lt_ge_cases j i) as [Hlt|Hge].
    + rewrite nth_error_app1 by lia. rewrite nth_error_firstn.
      destruct (Nat.ltb_spec j i); [reflexivity | lia].
    + rewrite nth_error_app2 by lia. rewrite Hf.
      replace (j - i)%nat with (S (j - S i)) by lia. cbn [nth_error].
      rewrite nth_error_skipn. f_equal. lia.
Qed.

(** The loop over the bodies appends one point to every trajectory. *)
Lemma record_tracks_counts (k cnt : nat) (t_state : Vector.t) (n : nat) :
  length t_state = (6 * k)%nat ->
  forall (a : nat) (sd : list SOLARSimulator.track),
    (a + n = k)%nat ->
    length sd = k ->
    (forall i tr, nth_error sd i = Some tr -> (i < a)%nat ->
                  track_points (S cnt) tr) ->
    (forall i tr, nth_error sd i = Some tr -> (a <= i)%nat ->
                  track_points cnt tr) ->
    exists sd',
      SOLARSimulator.record_tracks
        (map (fun q => (6 * q)%nat) (seq a n)) t_state sd = Ok sd' /\
      length sd' = k /\
      forall tr, In tr sd' -> track_points (S cnt) tr.
Proof.
  intros Hst. induction n as [|n IH]; intros a sd Ha Hsd Hlo Hhi.
  - exists sd. split; [reflexivity|]. split; [exact Hsd|].
    intros tr Hin. apply In_nth_error in Hin. destruct Hin as (i & Hi).
    apply (Hlo i tr Hi).
    assert (i < length sd)%nat by (apply nth_error_Some; congruence). lia.
  - cbn [seq map SOLARSimulator.record_tracks].
    replace (6 * a / 6)%nat with a by (rewrite Nat.mul_comm, Nat.div_mul; lia).
    destruct (nth_error sd a) as [tr|] eqn:Etr;
      [|apply nth_error_None in Etr; lia].
    rewrite !vector_get_ok by lia. cbn [bind].
    destruct (Hhi a tr Etr (Nat.le_refl a)) as (Hx & Hy & Hz).
    apply IH.
    + lia.
    + rewrite set_nth_length; lia.
    + intros i tr' Hi Hlt. rewrite nth_error_set_nth in Hi by lia.
      destruct (Nat.eqb_spec i a) as [->|Hne].
      * inversion Hi; subst. unfold track_points. cbn.
        rewrite !length_app. cbn. lia.
      * apply (Hlo i tr' Hi). lia.
    + intros i tr' Hi Hge. rewrite nth_error_set_nth in Hi by lia.
      destruct (Nat.eqb_spec i a) as [->|Hne]; [lia|].
      apply (Hhi i tr' Hi). lia.
Qed.

Lemma body_at_ok (state masses : list R) (i : nat) :
  Forall (fun m => 0 < m) masses -> (i < length masses)%nat ->
  body_ok (body_at state masses i).
Proof.
  intros Hpos Hi. unfold body_ok, body_at. cbn.
  repeat split. rewrite Forall_forall in Hpos. apply Hpos, nth_In. exact Hi.
Qed.

Lemma index_last {X : Type} (l : list X) :
  l <> [] -> exists x, Py.index l (-1) = Ok x.
Proof.
  intros Hne. destruct (nth_error l (length l - 1)) as [x|] eqn:E.
  - exists x. apply index_at with (k := (length l - 1)%nat); [|exact E].
    change (-1 <? 0)%Z with true. cbv iota.
    destruct l; [congruence|]. cbn [length]. lia.
  - apply nth_error_None in E. destruct l; [congruence|]. cbn [length] in E. lia.
Qed.

(** Consuming one state of the right length appends one entry to every
    series. *)
Lemma on_state_ok (cnt : nat) (self : SOLARSimulator.sim) (masses : list R)
  (t : nat) (t_state : Vector.t) :
  Forall (fun m => 0 < m) masses ->
  length t_state = (6 * length masses)%nat ->
  recorded (length masses) cnt self ->
  exists self',
    SOLARSimulator.on_state self masses t t_state = Ok self' /\
    recorded (length masses) (S cnt) self'.
Proof.
  intros Hpos Hst (Hsd & Htr & e & He & Hex & Hey & Hedy).
  unfold SOLARSimulator.on_state. rewrite Hst, range_six.
  destruct (record_tracks_counts (length masses) cnt t_state (length masses) Hst
              0%nat (SOLARSimulator.statedict self))
    as (sd' & Hrec & Hsd' & Htr'); try reflexivity; try assumption.
  { intros i tr _ Hi. lia. }
  { intros i tr Hi _. apply Htr. eapply nth_error_In; eauto. }
  rewrite Hrec. cbn [bind].
  rewrite (bodies_of_state_ok t_state masses Hpos Hst). cbn [bind].
  rewrite hamiltonian_value.
  2:{ intros x Hx. apply in_map_iff in Hx. destruct Hx as (i & <- & Hi).
      apply in_seq in Hi. apply body_at_ok; [exact Hpos | lia]. }
  cbn [bind]. rewrite He.
  destruct (index_last (SOLARSimulator.ey e)) as (prev & Hprev).
  { intros Hnil. rewrite Hnil in Hey. discriminate. }
  rewrite Hprev. cbn [bind]. eexists. split; [reflexivity|].
  unfold recorded. cbn. split; [exact Hsd'|]. split; [exact Htr'|].
  eexists. split; [reflexivity|]. cbn. rewrite !length_app. cbn. lia.
Qed.

Lemma consume_ok (masses : list R) (states : list Vector.t) :
  Forall (fun m => 0 < m) masses ->
  Forall (fun v => length v = (6 * length masses)%nat) states ->
  forall (cnt t : nat) (self : SOLARSimulator.sim),
    recorded (length masses) cnt self ->
    exists self',
      SOLARSimulator.consume masses states t self = Ok self' /\
      recorded (length masses) (cnt + length states) self'.
Proof.
  intros Hpos Hall. induction Hall as [|st states Hst _ IH];
    intros cnt t self Hrec.
  - exists self. split; [reflexivity|]. rewrite Nat.add_0_r. exact Hrec.
  - cbn [SOLARSimulator.consume].
    destruct (on_state_ok cnt self masses t st Hpos Hst Hrec) as (s1 & H1 & Hr1).
    rewrite H1. cbn [bind].
    destruct (IH (S cnt) (S t) s1 Hr1) as (s2 & H2 & Hr2).
    exists s2. split; [exact H2|]. cbn [length].
    replace (cnt + S (length states))%nat with (S cnt + length states)%nat by lia.
    exact Hr2.
Qed.

Lemma flatten_loop_ok (bodies : list Body) :
  (forall x, In x bodies -> body_ok x) ->
  forall params masses,
    BodyM.flatten_loop bodies params masses
    = Ok (params ++ flat_map (fun x => position x ++ velocity x) bodies,
          masses ++ map mass bodies).
Proof.
  induction bodies as [|x bodies IH]; intros Hok params masses.
  - cbn. rewrite !app_nil_r. reflexivity.
  - cbn [BodyM.flatten_loop]. destruct (Hok x) as (_ & Hp & Hv); [left; reflexivity|].
    unfold BodyM.flatten1. cbn [app length]. rewrite length_app, Hp, Hv.
    cbn [Nat.add Nat.eqb negb skipn firstn].
    rewrite IH by (intros; apply Hok; right; assumption).
    cbn [flat_map map]. rewrite <- !app_assoc. reflexivity.
Qed.

Lemma flat_state_length (bodies : list Body) :
  (forall x, In x bodies -> body_ok x) ->
  length (flat_map (fun x => position x ++ velocity x) bodies)
  = (6 * length bodies)%nat.
Proof.
  induction bodies as [|x bodies IH]; intros Hok; [reflexivity|].
  cbn [flat_map length]. destruct (Hok x) as (_ & Hp & Hv); [left; reflexivity|].
  rewrite !length_app, Hp, Hv, IH by (intros; apply Hok; right; assumption).
  lia.
Qed.

Lemma system_masses_positive (bodies : list Body) :
  (forall x, In x bodies -> body_ok x) ->
  Forall (fun m => 0 < m) (map mass bodies).
Proof.
  intros Hok. apply Forall_forall. intros m Hm. apply in_map_iff in Hm.
  destruct Hm as (x & <- & Hx). apply (Hok x Hx).
Qed.

Lemma n_body_kw_preserves (masses : list R) :
  Forall (fun m => 0 < m) masses ->
  preserves_dim SOLARSimulator.n_body_kw (Some masses) (6 * length masses).
Proof.
  intros Hpos t y Hy. exists (n_body_spec y masses). split.
  - apply n_body_ok; assumption.
  - apply n_body_spec_length.
Qed.

Lemma int_of_integer (z : Z) : (0 <= z)%Z -> Py.int (IZR z) = z.
Proof.
  intros Hz. unfold Py.int.
  destruct (Rle_dec 0 (IZR z)) as [_|Hn]; [|exfalso; apply Hn, IZR_le; exact Hz].
  symmetry. apply Int_part_spec. lra.
Qed.

Lemma steps_7200_10 :
  Py.int ((IZR (7200 * 3600) - 0) / IZR (10 * 3600)) = 720%Z.
Proof.
  replace ((IZR (7200 * 3600) - 0) / IZR (10 * 3600)) with (IZR 720).
  - apply int_of_integer. lia.
  - change (7200 * 3600)%Z with 25920000%Z. change (10 * 3600)%Z with 36000%Z.
    lra.
Qed.

(** The driver runs to completion and records one entry per state yielded
    by the integrator, that is [n + 1] of them for [n] steps. *)
Lemma driver_run (data : list Body) (duration step n : Z)
  (cs : list SOLARSimulator.callback) :
  (forall x, In x data -> body_ok x) ->
  (0 < duration)%Z ->
  Py.int ((IZR (duration * 3600) - 0) / IZR (step * 3600)) = n ->
  (1 <= n)%Z ->
  exists self',
    SOLARSimulator.run_simulation
      (SOLARSimulator.mk data duration step None [] cs) = Ok self' /\
    recorded (length data) (Z.to_nat n + 1) self'.
Proof.
  intros Hok Hd Hint Hn. unfold SOLARSimulator.run_simulation.
  cbn [SOLARSimulator.data SOLARSimulator.duration SOLARSimulator.step
       SOLARSimulator.calls].
  unfold BodyM.flatten. rewrite (flatten_loop_ok data Hok). cbn [bind app].
  rewrite (hamiltonian_value data Hok). cbn [bind]. rewrite Hint.
  rewrite init_ok; [|exact Hn|].
  2:{ apply Rlt_not_eq. apply IZR_lt. lia. }
  cbn [bind].
  pose proof (system_masses_positive data Hok) as Hpos.
  pose proof (flat_state_length data Hok) as Hlen.
  set (rk4 := ARK.set_func_kwargs _ (Some (map mass data))).
  assert (Hwf : well_formed (ARK.tab rk4) 4) by exact erk4_well_formed.
  assert (Hf : preserves_dim (ARK.func rk4) (ARK.f_kwargs rk4)
                             (length (ARK.y0 rk4))).
  { cbn [rk4 ARK.set_func_kwargs ARK.func ARK.f_kwargs ARK.y0].
    rewrite Hlen, <- (length_map mass data).
    apply n_body_kw_preserves. exact Hpos. }
  destruct (run_ok 4 rk4) as (states & Hrun & Hcount & _);
    [cbn; lia | exact Hwf | exact Hf |].
  pose proof (run_dims 4 rk4 states None Hwf Hf Hrun) as Hdims.
  rewrite Hrun.
  cbn [rk4 ARK.set_func_kwargs ARK.y0 ARK.n] in Hdims, Hcount.
  rewrite Hlen, <- (length_map mass data) in Hdims.
  destruct (consume_ok (map mass data) states Hpos Hdims 0%nat 0%nat
              (SOLARSimulator.mk data duration step
                 (Some (SOLARSimulator.mkEnergy
                          [0%Z]
                          [potential_energy data + kinetic_energy data]
                          [0]))
                 (map (fun x => SOLARSimulator.mkTrack [] [] [] (name x)) data)
                 cs))
    as (self1 & Hcons & Hrec).
  { unfold recorded. cbn. rewrite !length_map. split; [reflexivity|].
    split.
    - intros tr Htr. apply in_map_iff in Htr. destruct Htr as (x & <- & _).
      repeat split.
    - eexists. split; [reflexivity|]. repeat split. }
  rewrite Hcons. cbn [bind]. eexists. split; [reflexivity|].
  rewrite length_map, Hcount in Hrec. exact Hrec.
Qed.

Lemma init_valid (data : list Body) (duration step : Z) :
  valid_system data -> (0 < duration)%Z -> (0 < step <= duration)%Z ->
  SOLARSimulator.init data duration step
  = Ok (SOLARSimulator.mk data duration step None [] []).
Proof.
  intros (Hok & Hco & Hapart) Hd Hs. unfold SOLARSimulator.init.
  destruct (negb (SOLARSimulator.set_size data =? length data)%nat
            || negb (fold_left (SOLARSimulator.check_pos data) data true)) eqn:E.
  - exfalso. apply Hapart. apply (duplicate_test data Hok Hco). exact E.
  - destruct (duration <=? 0)%Z eqn:E1; [apply Z.leb_le in E1; lia|].
    destruct (step <=? 0)%Z eqn:E2; [apply Z.leb_le in E2; lia|].
    destruct (duration <? step)%Z eqn:E3; [apply Z.ltb_lt in E3; lia|].
    reflexivity.
Qed.

Lemma two_bodies_valid : valid_system two_bodies.
Proof.
  split; [exact two_bodies_ok|].
  split; [exact two_bodies_coherent | exact two_bodies_apart].
Qed.

(** C4, as stated, fails: with duration 7200 and step 10 the driver records
    [duration/step + 1 = 721] states, not 720.  On the two-body system the
    energy series end with 722 entries, 721 past the initial one, and each
    trajectory, which starts empty, holds 721 points. *)
Lemma driver_7200_10_records_721 :
  exists sim sim' e,
    SOLARSimulator.init two_bodies 7200 10 = Ok sim /\
    SOLARSimulator.run_simulation sim = Ok sim' /\
    SOLARSimulator.error sim' = Some e /\
    length (SOLARSimulator.ey e) = (1 + 721)%nat /\
    length (SOLARSimulator.ey e) <> (1 + Z.to_nat (7200 / 10))%nat /\
    Forall (fun tr => length (SOLARSimulator.xs tr) = 721%nat /\
                      length (SOLARSimulator.xs tr) <> Z.to_nat (7200 / 10))
           (SOLARSimulator.statedict sim').
Proof.
  destruct (driver_run two_bodies 7200 10 720 [] two_bodies_ok)
    as (sim' & Hrun & _ & Htr & e & He & _ & Hey & _);
    [lia | exact steps_7200_10 | lia |].
  exists (SOLARSimulator.mk two_bodies 7200 10 None [] []), sim', e.
  split; [apply init_valid; [exact two_bodies_valid | lia | lia]|].
  split; [exact Hrun|]. split; [exact He|].
  change (Z.to_nat 720 + 1)%nat with 721%nat in Hey, Htr.
  change (Z.to_nat (7200 / 10)) with 720%nat.
  split; [exact Hey|]. split; [rewrite Hey; discriminate|].
  apply Forall_forall. intros tr Hin. destruct (Htr tr Hin) as (Hx & _).
  rewrite Hx. split; [reflexivity | discriminate].
Qed.

(** C4 (amended): running the driver with duration = 7200 hours and
    step = 10 hours over a valid body collection succeeds and records
    [duration/step + 1 = 721] states: every energy series (time, Hamiltonian,
    delta) ends with its initial entry followed by 721 entries, and every
    per-body trajectory, which starts empty (the initial position is not
    recorded), ends with 721 points. *)
Theorem driver_7200_10 :
  forall data : list Body,
    valid_system data ->
    exists sim sim',
      SOLARSimulator.init data 7200 10 = Ok sim /\
      SOLARSimulator.run_simulation sim = Ok sim' /\
      recorded (length data) (Z.to_nat (7200 / 10) + 1) sim'.
Proof.
  intros data Hvalid.
  destruct (driver_run data 7200 10 720 [] (proj1 Hvalid))
    as (sim' & Hrun & Hrec); [lia | exact steps_7200_10 | lia |].
  exists (SOLARSimulator.mk data 7200 10 None [] []), sim'.
  split; [apply init_valid; [exact Hvalid | lia | lia]|].
  split; [exact Hrun | exact Hrec].
Qed.

Lemma driver_7200_10_witness :
  exists sim sim',
    SOLARSimulator.init two_bodies 7200 10 = Ok sim /\
    SOLARSimulator.run_simulation sim = Ok sim' /\
    recorded (length two_bodies) (Z.to_nat (7200 / 10) + 1) sim'.
Proof.
  apply (driver_7200_10 two_bodies). exact two_bodies_valid.
Defined.

End Driver.

(** ** Sanity checks on concrete inputs *)

Section Examples.

Example add_same_dim :
  Vector.add [1; 2; 3; 4] [4; 3; 2; 1] = Ok [1 + 4; 2 + 3; 3 + 2; 4 + 1].
Proof. reflexivity. Qed.

Example scalar_product_null : Vector.matmul [1; 2; 3; 4] Vector.EMPTY = Ok 0.
Proof. reflexivity. Qed.

Example product : Vector.mul [1; 2; 3; 4] 2 = [1 * 2; 2 * 2; 3 * 2; 4 * 2].
Proof. reflexivity. Qed.

Example range_offsets : Py.range 0 12 6 = [0; 6]%nat.
Proof. reflexivity. Qed.

Example range_pairs : Py.range 2 5 1 = [2; 3; 4]%nat.
Proof. reflexivity. Qed.

Example slice_tail :
  Vector.get_slice two_body_state 9 12 = Ok [0; 1; 0].
Proof. reflexivity. Qed.

Example two_bodies_flat :
  BodyM.flatten two_bodies = Ok (two_body_state, two_body_masses).
Proof. reflexivity. Qed.

Example same_bodies_rejected :
  SOLARSimulator.init [star; star] 50 10 = Raise BodyError.
Proof. reflexivity. Qed.

Example planet_star_distance : distance two_body_state 1 0 = 1.
Proof.
  unfold distance, pos_at, two_body_state.
  cbn [big_sum fold_right nth Nat.mul Nat.add].
  replace ((0 - 1) ^ 2 + ((0 - 0) ^ 2 + ((0 - 0) ^ 2 + 0))) with 1 by lra.
  apply sqrt_1.
Qed.

(** The planet, at distance 1 of the star of mass 2, is pulled along the
    first axis towards the origin with acceleration [2 G]. *)
Example planet_acceleration :
  accel_at two_body_state two_body_masses 1 0 = - (2 * Physic.G).
Proof.
  unfold accel_at, others, two_body_masses.
  cbn [length seq filter Nat.eqb negb].
  rewrite big_sum_cons, big_sum_nil, planet_star_distance.
  unfold pos_at, two_body_state. cbn [nth Nat.mul Nat.add]. lra.
Qed.

Example two_bodies_kinetic : kinetic_energy two_bodies = 1 / 2.
Proof.
  unfold kinetic_energy, two_bodies, norm2.
  cbn [length seq big_sum fold_right nth star planet mass velocity map].
  replace ((2 * 0) ^ 2 + ((2 * 0) ^ 2 + ((2 * 0) ^ 2 + 0))) with 0 by lra.
  replace ((1 * 0) ^ 2 + ((1 * 1) ^ 2 + ((1 * 0) ^ 2 + 0))) with 1 by lra.
  rewrite sqrt_0, sqrt_1. lra.
Qed.

Example two_bodies_potential :
  potential_energy two_bodies = - (2 * Physic.G).
Proof.
  unfold potential_energy, two_bodies, norm2.
  cbn [length seq big_sum fold_right nth star planet mass position
       Nat.ltb Nat.leb Vector.zip_with].
  replace ((0 - 1) ^ 2 + ((0 - 0) ^ 2 + ((0 - 0) ^ 2 + 0))) with 1 by lra.
  rewrite sqrt_1. lra.
Qed.

End Examples.

(** * Further properties of the package *)

(** ** Vector algebra *)

Section VectorAlgebra.

Lemma zip_with_length (op : R -> R -> R) (u v : list R) :
  length u = length v -> length (Vector.zip_with op u v) = length u.
Proof.
  revert v. induction u as [|x u IH]; intros [|y v] H; simpl in *;
    try congruence. f_equal. apply IH. lia.
Qed.

Lemma zip_with_nth (op : R -> R -> R) (u v : list R) (i : nat) :
  length u = length v -> (i < length u)%nat ->
  nth i (Vector.zip_with op u v) 0 = op (nth i u 0) (nth i v 0).
Proof.
  revert v i. induction u as [|x u IH]; intros [|y v] i H Hi; simpl in *;
    try lia. destruct i as [|i]; [reflexivity|]. apply IH; lia.
Qed.

(** [__eq__] never raises and decides equality of vectors. *)
Theorem vector_eq_decides :
  forall u v : Vector.t,
    (exists b, VectorOps.eq u v = Ok b) /\
    (VectorOps.eq u v = Ok true <-> u = v).
Proof.
  intros u v. unfold VectorOps.eq, Vector.len.
  destruct (Nat.eqb_spec (length u) (length v)) as [Hlen|Hlen].
  - rewrite range_one, Nat.sub_0_r.
    rewrite (mapM_pure _ (fun i => SOLARSimulator.Req_bool (nth i u 0) (nth i v 0))).
    + cbn [bind]. split; [eexists; reflexivity|]. split.
      * intros H. inversion H as [Hall]. rewrite forallb_forall in Hall.
        apply (nth_ext u v 0 0 Hlen). intros i Hi.
        apply Req_bool_true. apply Hall. apply in_map_iff.
        exists i. split; [reflexivity|]. apply in_seq. lia.
      * intros ->. f_equal. apply forallb_forall. intros b Hb.
        apply in_map_iff in Hb. destruct Hb as (i & <- & _).
        apply Req_bool_true. reflexivity.
    + intros i Hi. apply in_seq in Hi.
      rewrite !vector_get_ok by lia. reflexivity.
  - split; [eexists; reflexivity|]. split; [discriminate|].
    intros ->. contradiction.
Qed.

(** For two vectors of one dimension, [u + v] is the elementwise sum and
    equals [v + u]. *)
Theorem vector_add_elementwise_commutative :
  forall u v : Vector.t,
    Vector.len u = Vector.len v ->
    exists w,
      Vector.add u v = Ok w /\ Vector.add v u = Ok w /\
      Vector.len w = Vector.len u /\
      forall i, (i < Vector.len u)%nat -> nth i w 0 = nth i u 0 + nth i v 0.
Proof.
  intros u v Hlen. unfold Vector.add, Vector.len in *.
  exists (Vector.zip_with Rplus u v).
  assert (Hcomm : Vector.zip_with Rplus v u = Vector.zip_with Rplus u v)
    by (symmetry; apply vadd_comm).
  destruct (length v =? 0)%nat eqn:Ev.
  - apply Nat.eqb_eq in Ev. rewrite Hlen, Ev. cbn [Nat.eqb].
    destruct u; [|simpl in Hlen; lia]. destruct v; [|discriminate].
    repeat split. intros i Hi. simpl in Hi. lia.
  - rewrite Hlen, Nat.eqb_refl, Ev. cbn [negb]. rewrite Hcomm.
    repeat split.
    + rewrite zip_with_length; congruence.
    + intros i Hi. apply zip_with_nth; lia.
Qed.

Lemma vector_add_elementwise_commutative_witness :
  exists w,
    Vector.add [1; 2; 3; 4] [4; 3; 2; 1] = Ok w /\
    Vector.add [4; 3; 2; 1] [1; 2; 3; 4] = Ok w /\
    Vector.len w = Vector.len [1; 2; 3; 4] /\
    forall i, (i < 4)%nat ->
      nth i w 0 = nth i [1; 2; 3; 4] 0 + nth i [4; 3; 2; 1] 0.
Proof.
  apply (vector_add_elementwise_commutative [1; 2; 3; 4] [4; 3; 2; 1]).
  reflexivity.
Defined.

(** Subtracting then adding back a vector of the same dimension gives the
    vector one started from. *)
Theorem vector_sub_add_round_trip :
  forall u v : Vector.t,
    Vector.len u = Vector.len v ->
    (d <- Vector.sub u v ;; Vector.add d v) = Ok u.
Proof.
  intros u v Hlen. unfold Vector.sub, Vector.add, Vector.len in *.
  destruct (length v =? 0)%nat eqn:Ev.
  - reflexivity.
  - rewrite Hlen, Nat.eqb_refl. cbn [negb bind].
    rewrite zip_with_length, Hlen, Nat.eqb_refl by exact Hlen. cbn [negb].
    f_equal. clear Ev. revert v Hlen.
    induction u as [|x u IH]; intros [|y v] Hlen; simpl in *; try congruence.
    rewrite IH by lia. f_equal. ring.
Qed.

Lemma vector_sub_add_round_trip_witness :
  (d <- Vector.sub [1; 2; 3; 4] [4; 3; 2; 1] ;; Vector.add d [4; 3; 2; 1])
  = Ok [1; 2; 3; 4].
Proof.
  apply (vector_sub_add_round_trip [1; 2; 3; 4] [4; 3; 2; 1]). reflexivity.
Defined.



(** The scalar product of two vectors of one dimension does not depend on
    the order of its operands. *)
Theorem vector_matmul_symmetric :
  forall u v : Vector.t,
    Vector.len u = Vector.len v -> Vector.matmul u v = Vector.matmul v u.
Proof.
  intros u v Hlen. unfold Vector.matmul, Vector.len in *.
  rewrite Hlen, Nat.eqb_refl. cbn [negb].
  destruct (length v =? 0)%nat eqn:Ev; [reflexivity|].
  f_equal. f_equal. clear Ev. revert v Hlen.
  induction u as [|x u IH]; intros [|y v] Hlen; simpl in *; try congruence.
  rewrite IH by lia. f_equal. ring.
Qed.

Lemma vector_matmul_symmetric_witness :
  Vector.matmul [1; 2; 3; 4] [4; 3; 2; 1] = Vector.matmul [4; 3; 2; 1] [1; 2; 3; 4].
Proof.
  apply (vector_matmul_symmetric [1; 2; 3; 4] [4; 3; 2; 1]). reflexivity.
Defined.

End VectorAlgebra.

(** ** Vector: sum of a collection and concatenation *)

Section VectorCollections.

Lemma fold_raise {X : Type} (g : result Vector.t -> X -> result Vector.t)
  (l : list X) (e : exn) :
  (forall x, g (Raise e) x = Raise e) -> fold_left g l (Raise e) = Raise e.
Proof.
  intros Hg. induction l as [|x l IH]; simpl; [reflexivity|].
  rewrite Hg. exact IH.
Qed.

Lemma fold_vadd_shift (l : list (list R)) (a z : list R) :
  fold_left vadd l (vadd a z) = vadd a (fold_left vadd l z).
Proof.
  revert z. induction l as [|x l IH]; intros z; simpl; [reflexivity|].
  rewrite <- vadd_assoc. apply IH.
Qed.

Lemma fold_vadd_vsum (first : list R) (rest : list (list R)) :
  fold_left vadd rest first = vsum (length first) (first :: rest).
Proof.
  unfold vsum. cbn [fold_right].
  rewrite <- (fold_symmetric vadd) by (intros; auto using vadd_assoc, vadd_comm).
  rewrite <- fold_vadd_shift, vadd_zeros. reflexivity.
Qed.

(** [Vector.sum]: no vector gives the empty vector; vectors of one
    dimension give their componentwise sum; a vector whose length differs
    from that of the first one makes the call raise [ValueError]. *)
Theorem vector_sum_cases :
  VectorOps.sum [] = Ok Vector.EMPTY /\
  (forall first rest,
     Forall (fun x => length x = length first) rest ->
     VectorOps.sum (first :: rest)
     = Ok (vsum (length first) (first :: rest))) /\
  (forall first rest,
     ~ Forall (fun x => length x = length first) rest ->
     VectorOps.sum (first :: rest) = Raise ValueError).
Proof.
  split; [reflexivity|].
  assert (Hstep : forall (first : list R) (rest : list (list R)) (a : list R),
             length a = length first ->
             Forall (fun x => length x = length first) rest ->
             fold_left (fun acc x =>
                          a <- acc ;;
                          if negb (length x =? length first)%nat
                          then Raise ValueError else Vector.add a x)
                       rest (Ok a)
             = Ok (fold_left vadd rest a)).
  { intros first rest a Ha Hall. revert a Ha.
    induction Hall as [|x rest Hx _ IH]; intros a Ha; cbn [fold_left];
      [reflexivity|].
    cbn [bind]. rewrite Hx, Nat.eqb_refl. cbn [negb].
    unfold Vector.add, Vector.len. rewrite Ha, Hx, Nat.eqb_refl. cbn [negb].
    destruct (length first =? 0)%nat eqn:E0.
    - apply Nat.eqb_eq in E0. rewrite IH by exact Ha. f_equal. f_equal.
      destruct a; [|simpl in Ha; lia]. reflexivity.
    - apply IH. unfold vadd. rewrite zip_with_length; congruence. }
  split.
  - intros first rest Hall. unfold VectorOps.sum.
    rewrite (Hstep first rest first eq_refl Hall). f_equal.
    apply fold_vadd_vsum.
  - intros first rest Hbad. unfold VectorOps.sum.
    assert (Hgen : forall a : list R, length a = length first ->
               fold_left (fun acc x =>
                            a <- acc ;;
                            if negb (length x =? length first)%nat
                            then Raise ValueError else Vector.add a x)
                         rest (Ok a) = Raise ValueError).
    { induction rest as [|x rest IH]; intros a Ha.
      - exfalso. apply Hbad. constructor.
      - cbn [fold_left bind].
        destruct (Nat.eqb_spec (length x) (length first)) as [Hx|Hx]; cbn [negb].
        + unfold Vector.add, Vector.len. rewrite Ha, Hx, Nat.eqb_refl. cbn [negb].
          destruct (length first =? 0)%nat.
          * apply IH; [|exact Ha]. intros H. apply Hbad. constructor; assumption.
          * apply IH; [intros H; apply Hbad; constructor; assumption|].
            rewrite zip_with_length; congruence.
        + apply fold_raise. reflexivity. }
    apply Hgen. reflexivity.
Qed.

Lemma vector_sum_cases_witness :
  VectorOps.sum [ [1; 2; 3; 4]; [1; 2; 3; 4]; [4; 3; 2; 1] ]
  = Ok (vsum 4 [ [1; 2; 3; 4]; [1; 2; 3; 4]; [4; 3; 2; 1] ]) /\
  VectorOps.sum [ [1; 2; 3; 4]; [5; 4; 3; 2; 1] ] = Raise ValueError.
Proof.
  destruct vector_sum_cases as (_ & Hok & Hbad). split.
  - apply (Hok [1; 2; 3; 4] [ [1; 2; 3; 4]; [4; 3; 2; 1] ]).
    repeat constructor.
  - apply (Hbad [1; 2; 3; 4] [ [5; 4; 3; 2; 1] ]).
    intros H. inversion H as [|x l Hx Hl]; subst. simpl in Hx. discriminate.
Defined.

Lemma concat_length (args : list (list R)) :
  Vector.len (Vector.concat args) = list_sum (map (@length R) args).
Proof.
  rewrite concat_fold. unfold Vector.len.
  induction args as [|x args IH]; simpl; [reflexivity|].
  rewrite length_app, IH. reflexivity.
Qed.

(** Concatenation keeps every element in order: the length of the result is
    the sum of the lengths, and slicing the concatenation of two vectors at
    their boundary gives the two vectors back. *)
Theorem concat_slice_round_trip :
  forall u v : Vector.t,
    Vector.len (Vector.concat [u; v]) = (Vector.len u + Vector.len v)%nat /\
    Vector.get_slice (Vector.concat [u; v]) 0 (Vector.len u) = Ok u /\
    Vector.get_slice (Vector.concat [u; v]) (Vector.len u)
                     (Vector.len u + Vector.len v) = Ok v.
Proof.
  intros u v. unfold Vector.len. rewrite concat_fold. cbn [List.concat].
  rewrite app_nil_r. split; [apply length_app|]. split.
  - rewrite get_slice_ok by (rewrite ?length_app; lia).
    rewrite Nat.sub_0_r. cbn [skipn]. rewrite firstn_app, Nat.sub_diag, firstn_all.
    cbn [firstn]. rewrite app_nil_r. reflexivity.
  - rewrite get_slice_ok by (rewrite ?length_app; lia).
    replace (length u + length v - length u)%nat with (length v) by lia.
    rewrite skipn_app, skipn_all, Nat.sub_diag. cbn [skipn app].
    rewrite firstn_all. reflexivity.
Qed.

End VectorCollections.

(** ** Norm, distance and exclusion *)

Section NormDistance.




Lemma squares_zero (v : list R) :
  fold_right (fun x acc => x ^ 2 + acc) 0 v = 0 -> Forall (fun x => x = 0) v.
Proof.
  induction v as [|x v IH]; cbn [fold_right]; intros H; [constructor|].
  pose proof (pow2_ge_0 x) as Hx. pose proof (squares_nonneg v) as Hv.
  constructor.
  - assert (Hx0 : x ^ 2 = 0) by lra. simpl in Hx0.
    destruct (Rmult_integral _ _ Hx0) as [E|E]; [exact E|lra].
  - apply IH. lra.
Qed.

Lemma zip_minus_zero (u v : list R) :
  length u = length v ->
  Forall (fun x => x = 0) (Vector.zip_with Rminus v u) -> u = v.
Proof.
  revert v. induction u as [|x u IH]; intros [|y v] Hlen H; simpl in *;
    try congruence. inversion H; subst. f_equal; [lra|]. apply IH; [lia|assumption].
Qed.






Lemma ident_injective (l : list Body) (x y : Body) :
  NoDup (map ident l) -> In x l -> In y l -> ident x = ident y -> x = y.
Proof.
  induction l as [|a l IH]; simpl; intros Hnd Hx Hy Hid; [contradiction|].
  inversion Hnd as [|? ? Hnotin Hnd']; subst.
  destruct Hx as [<-|Hx]; destruct Hy as [<-|Hy]; auto.
  - exfalso. apply Hnotin. rewrite Hid. apply in_map. exact Hy.
  - exfalso. apply Hnotin. rewrite <- Hid. apply in_map. exact Hx.
Qed.

(** [exclude] on bodies goes by identity: from a sequence of distinct
    objects it removes the given object and nothing else, keeping the order
    of the others; a sequence that does not hold the object is returned
    unchanged. *)
Theorem exclude_removes_the_object :
  forall (l : list Body) (obj : Body),
    NoDup (map ident l) ->
    (In obj l ->
       length (exclude BodyM.ne l obj) = (length l - 1)%nat /\
       ~ In obj (exclude BodyM.ne l obj) /\
       forall d, In d l -> d <> obj -> In d (exclude BodyM.ne l obj)) /\
    (~ In (ident obj) (map ident l) -> exclude BodyM.ne l obj = l).
Proof.
  intros l obj Hnd. unfold exclude. split.
  - intros Hin. split; [|split].
    + clear -Hnd Hin. induction l as [|a l IH]; [contradiction|].
      inversion Hnd as [|? ? Hnotin Hnd']; subst. cbn [filter].
      unfold BodyM.ne at 1, BodyM.is_.
      destruct (Nat.eqb_spec (ident a) (ident obj)) as [Hid|Hid]; cbn [negb].
      * assert (Hall : filter (fun d => BodyM.ne d obj) l = l).
        { apply forallb_filter_id. apply forallb_forall. intros d Hd.
          unfold BodyM.ne, BodyM.is_. apply negb_true_iff, Nat.eqb_neq.
          intros Hd'. apply Hnotin. rewrite Hid, <- Hd'. apply in_map. exact Hd. }
        rewrite Hall. cbn [length]. lia.
      * destruct Hin as [->|Hin]; [contradiction Hid; reflexivity|].
        cbn [length]. rewrite (IH Hnd' Hin).
        destruct l; [contradiction|]. cbn [length]. lia.
    + intros H. apply filter_In in H. destruct H as [_ H].
      unfold BodyM.ne, BodyM.is_ in H. rewrite Nat.eqb_refl in H. discriminate.
    + intros d Hd Hne. apply filter_In. split; [exact Hd|].
      unfold BodyM.ne, BodyM.is_. apply negb_true_iff, Nat.eqb_neq.
      intros Hid. apply Hne. apply (ident_injective l); assumption.
  - intros Hnotin. apply forallb_filter_id. apply forallb_forall. intros d Hd.
    unfold BodyM.ne, BodyM.is_. apply negb_true_iff, Nat.eqb_neq.
    intros Hid. apply Hnotin. rewrite <- Hid. apply in_map. exact Hd.
Qed.

Lemma exclude_removes_the_object_witness :
  length (exclude BodyM.ne two_bodies planet) = (length two_bodies - 1)%nat /\
  ~ In planet (exclude BodyM.ne two_bodies planet) /\
  forall d, In d two_bodies -> d <> planet ->
            In d (exclude BodyM.ne two_bodies planet).
Proof.
  apply (exclude_removes_the_object two_bodies planet).
  - repeat constructor; simpl; intuition discriminate.
  - right. left. reflexivity.
Defined.

End NormDistance.

(** ** Bodies and the state codec *)

Section Bodies.

(** [Body.__init__] raises [ValueError] when the mass is not strictly
    positive or when the position or the velocity is not of length 3;
    otherwise it builds a body holding exactly the given values, which
    satisfies the invariant of the class. *)
Theorem body_init_cases :
  forall (id : nat) (m : R) (p v : list R) (nm : option string),
    (m <= 0 \/ length p <> 3%nat \/ length v <> 3%nat ->
     BodyM.init id m p v nm = Raise ValueError) /\
    (0 < m -> length p = 3%nat -> length v = 3%nat ->
     exists x, BodyM.init id m p v nm = Ok x /\ body_ok x /\
               ident x = id /\ physical x = (m, p, v) /\
               forall s, nm = Some s -> name x = s).
Proof.
  intros id m p v nm. unfold BodyM.init. split.
  - intros H. destruct (Rle_dec m 0) as [_|Hm]; [reflexivity|].
    destruct (Nat.eqb_spec (length p) 3) as [Hp|Hp]; [|reflexivity].
    destruct (Nat.eqb_spec (length v) 3) as [Hv|Hv]; [|reflexivity].
    exfalso. destruct H as [H|[H|H]]; [lra | contradiction | contradiction].
  - intros Hm Hp Hv. destruct (Rle_dec m 0); [lra|]. rewrite Hp, Hv.
    cbn [Nat.eqb negb]. eexists. split; [reflexivity|].
    unfold body_ok, physical. cbn. repeat split; try assumption.
    intros s ->. reflexivity.
Qed.

Lemma body_init_cases_witness :
  BodyM.init 0 (-5) [1; 2; 3] [1; 2; 3] None = Raise ValueError /\
  BodyM.init 0 5 [1; 2; 3] [1; 2; 3; 4] None = Raise ValueError /\
  exists x, BodyM.init 0 50 [1; 2; 3] [1; 2; 3] (Some "I am a test"%string) = Ok x /\
            body_ok x /\ ident x = 0%nat /\
            physical x = (50, [1; 2; 3], [1; 2; 3]) /\
            forall s, Some "I am a test"%string = Some s -> name x = s.
Proof.
  destruct (body_init_cases 0 (-5) [1; 2; 3] [1; 2; 3] None) as (H1 & _).
  destruct (body_init_cases 0 5 [1; 2; 3] [1; 2; 3; 4] None) as (H2 & _).
  destruct (body_init_cases 0 50 [1; 2; 3] [1; 2; 3] (Some "I am a test"%string))
    as (_ & H3).
  split; [apply H1; left; lra|].
  split; [apply H2; right; right; cbn [length]; lia|].
  apply H3; [lra | reflexivity | reflexivity].
Defined.

(** The setters re-validate the dimension: a value that is not of length 3
    is refused with [ValueError]; a value of length 3 replaces the field,
    leaves identity, name, mass and the other field alone, and keeps the
    invariant of the class. *)
Theorem body_setters_keep_invariant :
  forall (self : Body) (v : list R),
    body_ok self ->
    (length v <> 3%nat ->
     BodySet.set_position self v = Raise ValueError /\
     BodySet.set_velocity self v = Raise ValueError) /\
    (length v = 3%nat ->
     exists x y,
       BodySet.set_position self v = Ok x /\ body_ok x /\
       ident x = ident self /\ name x = name self /\
       physical x = (mass self, v, velocity self) /\
       BodySet.set_velocity self v = Ok y /\ body_ok y /\
       ident y = ident self /\ name y = name self /\
       physical y = (mass self, position self, v)).
Proof.
  intros self v (Hm & Hp & Hv). unfold BodySet.set_position, BodySet.set_velocity.
  split.
  - intros Hne. apply Nat.eqb_neq in Hne. rewrite Hne. split; reflexivity.
  - intros Hlen. rewrite Hlen. cbn [Nat.eqb negb].
    eexists. eexists. unfold body_ok, physical. cbn.
    repeat split; assumption.
Qed.

Lemma body_setters_keep_invariant_witness :
  (BodySet.set_position planet [3; 3; 3; 3] = Raise ValueError /\
   BodySet.set_velocity planet [3; 3; 3; 3] = Raise ValueError) /\
  exists x y,
    BodySet.set_position planet [3; 3; 3] = Ok x /\ body_ok x /\
    ident x = ident planet /\ name x = name planet /\
    physical x = (mass planet, [3; 3; 3], velocity planet) /\
    BodySet.set_velocity planet [3; 3; 3] = Ok y /\ body_ok y /\
    ident y = ident planet /\ name y = name planet /\
    physical y = (mass planet, position planet, [3; 3; 3]).
Proof.
  assert (Hok : body_ok planet) by (apply two_bodies_ok; right; left; reflexivity).
  destruct (body_setters_keep_invariant planet [3; 3; 3; 3] Hok) as (H1 & _).
  destruct (body_setters_keep_invariant planet [3; 3; 3] Hok) as (_ & H2).
  split; [apply H1; cbn [length]; lia | apply H2; reflexivity].
Defined.

Lemma flatten_joined_loop_ok (bodies : list Body) :
  (forall x, In x bodies -> body_ok x) ->
  forall params,
    BodySet.flatten_joined_loop bodies params
    = Ok (params ++ flat_map BodyM.flatten1 bodies).
Proof.
  induction bodies as [|x bodies IH]; intros Hok params.
  - cbn. rewrite app_nil_r. reflexivity.
  - cbn [BodySet.flatten_joined_loop].
    destruct (Hok x) as (_ & Hp & Hv); [left; reflexivity|].
    assert (H7 : length (BodyM.flatten1 x) = 7%nat).
    { unfold BodyM.flatten1. cbn [app length]. rewrite length_app, Hp, Hv.
      reflexivity. }
    rewrite H7. cbn [Nat.eqb negb].
    rewrite IH by (intros; apply Hok; right; assumption).
    cbn [flat_map]. rewrite <- app_assoc. reflexivity.
Qed.

(** Flattening [k] bodies gives a state of length [6k] and [k] masses, or,
    with the masses left in, one vector of length [7k]; no body gives the
    empty vector and no mass. *)
Theorem flatten_sizes :
  forall bodies : list Body,
    (forall x, In x bodies -> body_ok x) ->
    exists state masses joined,
      BodyM.flatten bodies = Ok (state, masses) /\
      Vector.len state = (6 * length bodies)%nat /\
      masses = map mass bodies /\
      BodySet.flatten_joined bodies = Ok joined /\
      Vector.len joined = (7 * length bodies)%nat /\
      (bodies = [] -> state = Vector.EMPTY /\ masses = [] /\ joined = Vector.EMPTY).
Proof.
  intros bodies Hok.
  exists (flat_map (fun x => position x ++ velocity x) bodies),
         (map mass bodies), (flat_map BodyM.flatten1 bodies).
  unfold BodyM.flatten, BodySet.flatten_joined.
  rewrite (flatten_loop_ok bodies Hok), (flatten_joined_loop_ok bodies Hok).
  split; [reflexivity|]. split; [apply flat_state_length; exact Hok|].
  split; [reflexivity|]. split; [reflexivity|]. split.
  - unfold Vector.len. clear -Hok.
    induction bodies as [|x bodies IH]; [reflexivity|].
    cbn [flat_map length]. destruct (Hok x) as (_ & Hp & Hv); [left; reflexivity|].
    rewrite length_app, IH by (intros; apply Hok; right; assumption).
    unfold BodyM.flatten1. cbn [app length]. rewrite length_app, Hp, Hv. lia.
  - intros ->. repeat split.
Qed.

Lemma flatten_sizes_witness :
  exists state masses joined,
    BodyM.flatten two_bodies = Ok (state, masses) /\
    Vector.len state = (6 * length two_bodies)%nat /\
    masses = map mass two_bodies /\
    BodySet.flatten_joined two_bodies = Ok joined /\
    Vector.len joined = (7 * length two_bodies)%nat /\
    (two_bodies = [] -> state = Vector.EMPTY /\ masses = [] /\ joined = Vector.EMPTY).
Proof.
  apply (flatten_sizes two_bodies). exact two_bodies_ok.
Defined.

End Bodies.

(** ** Round trips between bodies and flat states *)

Section StateCodec.

Lemma flat_blocks_bodies (bodies : list Body) :
  (forall x, In x bodies -> body_ok x) ->
  forall i c, (i < length bodies)%nat -> (c < 6)%nat ->
    nth (6 * i + c) (flat_map (fun x => position x ++ velocity x) bodies) 0
    = nth c (position (nth i bodies no_body) ++ velocity (nth i bodies no_body)) 0.
Proof.
  induction bodies as [|x bodies IH]; intros Hok i c Hi Hc; simpl in Hi; [lia|].
  destruct (Hok x) as (_ & Hp & Hv); [left; reflexivity|].
  assert (H6 : length (position x ++ velocity x) = 6%nat)
    by (rewrite length_app, Hp, Hv; reflexivity).
  cbn [flat_map]. destruct i as [|i].
  - rewrite app_nth1 by lia. reflexivity.
  - rewrite app_nth2 by lia. rewrite H6.
    replace (6 * S i + c - 6)%nat with (6 * i + c)%nat by lia.
    cbn [nth]. apply IH; [intros; apply Hok; right; assumption | lia | lia].
Qed.

Lemma three_entries (l : list R) :
  length l = 3%nat -> l = [nth 0 l 0; nth 1 l 0; nth 2 l 0].
Proof.
  destruct l as [|a [|b [|c [|d l]]]]; simpl; intros H; try discriminate.
  reflexivity.
Qed.

(** Flattening valid bodies and rebuilding bodies from the flat state and
    the masses gives back bodies with the same masses, positions and
    velocities, in the same order. *)
Theorem flatten_then_rebuild :
  forall bodies : list Body,
    (forall x, In x bodies -> body_ok x) ->
    exists state masses rebuilt,
      BodyM.flatten bodies = Ok (state, masses) /\
      Physic.bodies_of_state state masses = Ok rebuilt /\
      map physical rebuilt = map physical bodies.
Proof.
  intros bodies Hok.
  pose proof (flat_state_length bodies Hok) as Hlen.
  pose proof (system_masses_positive bodies Hok) as Hpos.
  exists (flat_map (fun x => position x ++ velocity x) bodies), (map mass bodies).
  eexists. unfold BodyM.flatten. rewrite (flatten_loop_ok bodies Hok).
  split; [reflexivity|].
  rewrite bodies_of_state_ok by (rewrite ?length_map; assumption).
  split; [reflexivity|].
  rewrite map_map, length_map.
  transitivity (map physical (map (fun i => nth i bodies no_body)
                                  (seq 0 (length bodies)))).
  2:{ rewrite <- map_seq_nth. reflexivity. }
  rewrite map_map. apply map_ext_in. intros i Hi. apply in_seq in Hi.
  destruct (Hok (nth i bodies no_body)) as (_ & Hp & Hv); [apply nth_In; lia|].
  unfold physical, body_at, pos_at, vel_at. cbn [mass position velocity].
  rewrite (nth_indep _ 0 (mass no_body)) by (rewrite length_map; lia).
  rewrite (map_nth mass).
  rewrite <- !Nat.add_assoc.
  rewrite !(flat_blocks_bodies bodies Hok) by lia.
  rewrite !app_nth1 by lia. cbn [Nat.add].
  rewrite !app_nth2 by lia. rewrite Hp. cbn [Nat.sub].
  rewrite <- (three_entries _ Hp), <- (three_entries _ Hv). reflexivity.
Qed.

Lemma flatten_then_rebuild_witness :
  exists state masses rebuilt,
    BodyM.flatten two_bodies = Ok (state, masses) /\
    Physic.bodies_of_state state masses = Ok rebuilt /\
    map physical rebuilt = map physical two_bodies.
Proof.
  apply (flatten_then_rebuild two_bodies). exact two_bodies_ok.
Defined.

Lemma state_blocks (state : list R) (k : nat) :
  length state = (6 * k)%nat ->
  flat_map (fun i => [pos_at state i 0; pos_at state i 1; pos_at state i 2;
                      vel_at state i 0; vel_at state i 1; vel_at state i 2]%nat)
           (seq 0 k) = state.
Proof.
  revert state. induction k as [|k IH]; intros state Hlen.
  - destruct state; [reflexivity | discriminate].
  - rewrite seq_S, flat_map_app. cbn [flat_map Nat.add]. rewrite app_nil_r.
    transitivity (firstn (6 * k) state ++ skipn (6 * k) state);
      [|apply firstn_skipn].
    f_equal.
    + rewrite <- (IH (firstn (6 * k) state)) by (rewrite length_firstn; lia).
      rewrite !flat_map_concat_map. f_equal.
      apply map_ext_in. intros i Hi. apply in_seq in Hi.
      unfold pos_at, vel_at.
      rewrite !(nth_firstn (6 * k)).
      repeat match goal with
             | |- context [(?a <? ?b)%nat] =>
                 destruct (Nat.ltb_spec a b); [|lia]
             end.
      reflexivity.
    + assert (Hs : length (skipn (6 * k) state) = 6%nat)
        by (rewrite length_skipn; lia).
      unfold pos_at, vel_at.
      rewrite <- !Nat.add_assoc, <- !(nth_skipn (6 * k) state).
      cbn [Nat.add].
      destruct (skipn (6 * k) state) as [|a [|b [|c [|d [|e [|f [|g l]]]]]]];
        simpl in Hs; try discriminate. reflexivity.
Qed.

(** Rebuilding bodies from a flat state of length [6k] and [k] positive
    masses, then flattening them, gives the state and the masses back. *)
Theorem rebuild_then_flatten :
  forall (state : Vector.t) (masses : list R),
    Forall (fun m => 0 < m) masses ->
    length state = (6 * length masses)%nat ->
    exists rebuilt,
      Physic.bodies_of_state state masses = Ok rebuilt /\
      length rebuilt = length masses /\
      (forall x, In x rebuilt -> body_ok x) /\
      BodyM.flatten rebuilt = Ok (state, masses).
Proof.
  intros state masses Hpos Hlen.
  exists (map (body_at state masses) (seq 0 (length masses))).
  assert (Hok : forall x, In x (map (body_at state masses) (seq 0 (length masses))) ->
                          body_ok x).
  { intros x Hx. apply in_map_iff in Hx. destruct Hx as (i & <- & Hi).
    apply in_seq in Hi. apply body_at_ok; [exact Hpos | lia]. }
  split; [apply bodies_of_state_ok; assumption|].
  split; [rewrite length_map, length_seq; reflexivity|].
  split; [exact Hok|].
  unfold BodyM.flatten. rewrite (flatten_loop_ok _ Hok). cbn [app]. f_equal.
  f_equal.
  - rewrite flat_map_concat_map, map_map, <- flat_map_concat_map.
    cbn [body_at position velocity app]. apply state_blocks. exact Hlen.
  - rewrite map_map. cbn [body_at mass]. symmetry. apply map_seq_nth.
Qed.

Lemma rebuild_then_flatten_witness :
  exists rebuilt,
    Physic.bodies_of_state two_body_state two_body_masses = Ok rebuilt /\
    length rebuilt = length two_body_masses /\
    (forall x, In x rebuilt -> body_ok x) /\
    BodyM.flatten rebuilt = Ok (two_body_state, two_body_masses).
Proof.
  apply (rebuild_then_flatten two_body_state two_body_masses).
  - exact two_body_masses_positive.
  - reflexivity.
Defined.

End StateCodec.

(** ** Physics of the force model *)

Section ForceBalance.









(** A body alone in the system feels no force: its derivative is its
    velocity followed by a zero acceleration. *)
Theorem n_body_lone_body :
  forall (t m : R) (state : Vector.t),
    0 < m -> length state = 6%nat ->
    Physic.n_body t state [m]
    = Ok [nth 3 state 0; nth 4 state 0; nth 5 state 0; 0; 0; 0].
Proof.
  intros t m state Hm Hlen.
  rewrite n_body_ok by (try (repeat constructor; exact Hm); exact Hlen).
  reflexivity.
Qed.

Lemma n_body_lone_body_witness :
  Physic.n_body 0 [1; 2; 3; 4; 5; 6] [7]
  = Ok [nth 3 [1; 2; 3; 4; 5; 6] 0; nth 4 [1; 2; 3; 4; 5; 6] 0;
        nth 5 [1; 2; 3; 4; 5; 6] 0; 0; 0; 0].
Proof.
  apply (n_body_lone_body 0 7 [1; 2; 3; 4; 5; 6]); [lra | reflexivity].
Defined.

End ForceBalance.

(** ** Kinetic energy *)

Section Kinetic.

Lemma squares_scaled (m : R) (v : list R) :
  fold_right (fun x acc => x ^ 2 + acc) 0 (map (fun x => m * x) v)
  = m ^ 2 * fold_right (fun x acc => x ^ 2 + acc) 0 v.
Proof.
  induction v as [|x v IH]; cbn [map fold_right]; [ring|]. rewrite IH. ring.
Qed.

Lemma norm2_squared (v : list R) :
  norm2 v ^ 2 = fold_right (fun x acc => x ^ 2 + acc) 0 v.
Proof.
  unfold norm2. apply pow2_sqrt. apply squares_nonneg.
Qed.

Lemma big_sum_nonneg (g : nat -> R) (l : list nat) :
  (forall j, In j l -> 0 <= g j) -> 0 <= big_sum g l.
Proof.
  induction l as [|x l IH]; intros H; rewrite ?big_sum_nil, ?big_sum_cons; [lra|].
  pose proof (H x (or_introl eq_refl)).
  assert (0 <= big_sum g l) by (apply IH; intros; apply H; right; assumption).
  lra.
Qed.

(** The kinetic energy computed from the momenta is the usual
    [Sum_i m_i |v_i|^2 / 2], and it is never negative. *)
Theorem kinetic_energy_half_m_v2 :
  forall particles : list Body,
    (forall x, In x particles -> body_ok x) ->
    exists T,
      Physic.get_kinetic_energy_gen
        (map (fun p => (mass p, velocity p)) particles) = Ok T /\
      T = big_sum (fun i => mass (nth i particles no_body)
                            * norm2 (velocity (nth i particles no_body)) ^ 2 / 2)
                  (seq 0 (length particles)) /\
      0 <= T.
Proof.
  intros particles Hok. exists (kinetic_energy particles).
  split; [apply kinetic_ok|].
  assert (Heq : kinetic_energy particles
                = big_sum (fun i => mass (nth i particles no_body)
                             * norm2 (velocity (nth i particles no_body)) ^ 2 / 2)
                          (seq 0 (length particles))).
  { unfold kinetic_energy. apply big_sum_ext_in. intros i Hi. apply in_seq in Hi.
    cbv zeta. rewrite !norm2_squared, squares_scaled.
    destruct (Hok (nth i particles no_body)) as (Hm & _); [apply nth_In; lia|].
    field. lra. }
  split; [exact Heq|]. rewrite Heq. apply big_sum_nonneg.
  intros i Hi. apply in_seq in Hi.
  destruct (Hok (nth i particles no_body)) as (Hm & _); [apply nth_In; lia|].
  rewrite norm2_squared.
  pose proof (squares_nonneg (velocity (nth i particles no_body))) as Hs.
  apply Rmult_le_pos; [|lra]. apply Rmult_le_pos; lra.
Qed.

Lemma kinetic_energy_half_m_v2_witness :
  exists T,
    Physic.get_kinetic_energy_gen
      (map (fun p => (mass p, velocity p)) two_bodies) = Ok T /\
    T = big_sum (fun i => mass (nth i two_bodies no_body)
                          * norm2 (velocity (nth i two_bodies no_body)) ^ 2 / 2)
                (seq 0 (length two_bodies)) /\
    0 <= T.
Proof.
  apply (kinetic_energy_half_m_v2 two_bodies). exact two_bodies_ok.
Defined.

End Kinetic.

(** ** Construction and clock of the integrator *)

Section IntegratorClock.

Context {KW : Type}.


Lemma step_fields (self self' : ARK.t KW) :
  ARK.step self = Ok self' ->
  ARK.tab self' = ARK.tab self /\ ARK.func self' = ARK.func self /\
  ARK.h self' = ARK.h self /\ ARK.n self' = ARK.n self /\
  ARK.f_kwargs self' = ARK.f_kwargs self /\
  ARK.current_t self' = ARK.current_t self + ARK.h self.
Proof.
  unfold ARK.step. intros H.
  destruct (ARK.stages self _ []) as [ks|e]; cbn [bind] in H; [|discriminate].
  destruct (ARK.sum _) as [sv|e]; cbn [bind] in H; [|discriminate].
  destruct (Vector.add _ sv) as [y|e]; cbn [bind] in H; [|discriminate].
  inversion H; subst. cbn. repeat split.
Qed.

Lemma iter_step_clock (m : nat) :
  forall self self' : ARK.t KW,
    ARK.iter_step m self = Ok self' ->
    ARK.h self' = ARK.h self /\
    ARK.current_t self' = ARK.current_t self + INR m * ARK.h self.
Proof.
  induction m as [|m IH]; intros self self' H.
  - inversion H; subst. split; [reflexivity|]. simpl. ring.
  - cbn [ARK.iter_step] in H.
    destruct (ARK.step self) as [s1|e] eqn:E; cbn [bind] in H; [|discriminate].
    destruct (step_fields self s1 E) as (_ & _ & Hh & _ & _ & Ht).
    destruct (IH s1 self' H) as (Hh' & Ht').
    split; [congruence|]. rewrite Ht', Ht, Hh, S_INR. ring.
Qed.

(** The run makes [n + 1] updates of step [h = (tn - t0) / n]: when it
    ends, the clock of the integrator reads [tn + h], one step past the end
    of the interval. *)
Theorem run_overshoots_by_one_step :
  forall (no_kwargs kw : KW) (tb : tableau) (s : nat)
         (f : R -> Vector.t -> KW -> result Vector.t)
         (y : Vector.t) (t0 tn : R) (n : Z),
    (1 <= n)%Z -> t0 <> tn ->
    well_formed tb s ->
    preserves_dim f kw (length y) ->
    exists self ys final,
      ARK.init no_kwargs tb f y t0 tn n = Ok self /\
      ARK.run_simulation (ARK.set_func_kwargs self kw) = (ys, None) /\
      ARK.iter_step (length ys) (ARK.set_func_kwargs self kw) = Ok final /\
      nth_error ys (length ys - 1) = Some (ARK.y0 final) /\
      ARK.current_t final = tn + (tn - t0) / IZR n.
Proof.
  intros no_kwargs kw tb s f y t0 tn n Hn Ht Hwf Hf.
  exists (ARK.mk tb f y ((tn - t0) / IZR n) n t0 no_kwargs).
  destruct (run_ok s (ARK.set_func_kwargs
                        (ARK.mk tb f y ((tn - t0) / IZR n) n t0 no_kwargs) kw))
    as (ys & Hrun & Hlen & Hall); [simpl; lia | exact Hwf | exact Hf |].
  cbn [ARK.set_func_kwargs ARK.n ARK.tab ARK.func ARK.y0 ARK.h ARK.current_t
       ARK.f_kwargs] in *.
  destruct (Hall (length ys - 1)%nat) as (before & after & _ & Ha & _ & Hy & _);
    [lia|].
  replace (S (length ys - 1)) with (length ys) in Ha by lia.
  exists ys, after. split; [apply init_ok; assumption|].
  split; [exact Hrun|]. split; [exact Ha|]. split; [exact Hy|].
  destruct (iter_step_clock _ _ _ Ha) as (_ & Hclock).
  rewrite Hclock, Hlen.
  cbn [ARK.set_func_kwargs ARK.current_t ARK.h ARK.n].
  rewrite plus_INR, INR_IZR_INZ, Z2Nat.id by lia. simpl INR.
  field. apply not_0_IZR. lia.
Qed.

End IntegratorClock.


Lemma run_overshoots_by_one_step_witness :
  exists self ys final,
    ARK.init tt ERK4 test_f [0] 5 10 3 = Ok self /\
    ARK.run_simulation (ARK.set_func_kwargs self tt) = (ys, None) /\
    ARK.iter_step (length ys) (ARK.set_func_kwargs self tt) = Ok final /\
    nth_error ys (length ys - 1) = Some (ARK.y0 final) /\
    ARK.current_t final = 10 + (10 - 5) / IZR 3.
Proof.
  apply (run_overshoots_by_one_step tt tt ERK4 4 test_f [0] 5 10 3).
  - lia.
  - lra.
  - exact erk4_well_formed.
  - exact test_f_preserves.
Defined.

(** ** A failing step ends the run *)

Section FailingStep.

Context {KW : Type}.



End FailingStep.


(** ** Constant derivatives *)

Section ConstantField.

Context {KW : Type}.






End ConstantField.


(** ** What the driver records *)

Section DriverRecords.

Lemma index_minus_one (l : list R) :
  l <> [] -> Py.index l (-1) = Ok (last l 0).
Proof.
  intros Hne. apply index_at with (k := (length l - 1)%nat).
  - change (-1 <? 0)%Z with true. cbv iota.
    destruct l; [congruence|]. cbn [length]. lia.
  - destruct (exists_last Hne) as (l' & x & ->).
    rewrite last_last, length_app. cbn [length].
    rewrite nth_error_app2 by lia.
    replace (length l' + 1 - 1 - length l')%nat with 0%nat by lia. reflexivity.
Qed.

(** The loop over the bodies appends to each trajectory the position of
    its body in the state. *)
Lemma record_tracks_exact (k : nat) (t_state : Vector.t) (n : nat) :
  length t_state = (6 * k)%nat ->
  forall (a : nat) (sd : list SOLARSimulator.track),
    (a + n = k)%nat ->
    length sd = k ->
    SOLARSimulator.record_tracks
      (map (fun q => (6 * q)%nat) (seq a n)) t_state sd
    = Ok (firstn a sd
          ++ map (fun i => add_points [t_state] i (nth i sd no_track)) (seq a n)).
Proof.
  intros Hst. induction n as [|n IH]; intros a sd Ha Hsd.
  - cbn. rewrite app_nil_r, firstn_all2 by lia. reflexivity.
  - cbn [seq map SOLARSimulator.record_tracks].
    replace (6 * a / 6)%nat with a by (rewrite Nat.mul_comm, Nat.div_mul; lia).
    rewrite (nth_error_nth' sd no_track) by lia.
    rewrite !vector_get_ok by lia. cbn [bind].
    rewrite IH by (rewrite ?set_nth_length; lia).
    f_equal. unfold SOLARSimulator.set_nth.
    rewrite firstn_app, length_firstn, Nat.min_l by lia.
    rewrite firstn_firstn, Nat.min_r by lia.
    replace (S a - a)%nat with 1%nat by lia. cbn [firstn].
    rewrite <- app_assoc. f_equal. cbn [app]. f_equal.
    apply map_ext_in. intros i Hi. apply in_seq in Hi. f_equal.
    rewrite app_nth2 by (rewrite length_firstn; lia).
    rewrite length_firstn, Nat.min_l by lia.
    replace (i - a)%nat with (S (i - S a)) by lia. cbn [nth].
    rewrite nth_skipn. f_equal. lia.
Qed.

Lemma on_state_exact (self : SOLARSimulator.sim) (e : SOLARSimulator.energy)
  (masses : list R) (t : nat) (t_state : Vector.t) :
  Forall (fun m => 0 < m) masses ->
  length t_state = (6 * length masses)%nat ->
  length (SOLARSimulator.statedict self) = length masses ->
  SOLARSimulator.error self = Some e ->
  SOLARSimulator.ey e <> [] ->
  SOLARSimulator.on_state self masses t t_state
  = Ok (SOLARSimulator.mk
          (SOLARSimulator.data self) (SOLARSimulator.duration self)
          (SOLARSimulator.step self)
          (Some (SOLARSimulator.mkEnergy
                   (SOLARSimulator.ex e ++ [(Z.of_nat t * SOLARSimulator.step self)%Z])
                   (SOLARSimulator.ey e ++ [energy_of masses t_state])
                   (SOLARSimulator.edy e
                    ++ [energy_of masses t_state - last (SOLARSimulator.ey e) 0])))
          (map (fun i => add_points [t_state] i
                           (nth i (SOLARSimulator.statedict self) no_track))
               (seq 0 (length masses)))
          (SOLARSimulator.calls self ++ [SOLARSimulator.LoopCall t])).
Proof.
  intros Hpos Hst Hsd He Hey. unfold SOLARSimulator.on_state.
  rewrite Hst, range_six.
  rewrite (record_tracks_exact (length masses) t_state (length masses) Hst 0%nat)
    by (try reflexivity; exact Hsd).
  cbn [firstn app bind].
  rewrite (bodies_of_state_ok t_state masses Hpos Hst). cbn [bind].
  rewrite hamiltonian_value.
  2:{ intros x Hx. apply in_map_iff in Hx. destruct Hx as (i & <- & Hi).
      apply in_seq in Hi. apply body_at_ok; [exact Hpos | lia]. }
  cbn [bind]. rewrite He, (index_minus_one _ Hey). reflexivity.
Qed.

Lemma add_points_app (st : list R) (states : list (list R)) (i : nat)
  (tr : SOLARSimulator.track) :
  add_points states i (add_points [st] i tr) = add_points (st :: states) i tr.
Proof.
  unfold add_points. cbn [SOLARSimulator.xs SOLARSimulator.ys SOLARSimulator.zs
                          SOLARSimulator.label map].
  rewrite <- !app_assoc. reflexivity.
Qed.

Lemma last_snoc_default (l : list R) (x d : R) : last (l ++ [x]) d = x.
Proof. apply last_last. Qed.

(** Consuming the states one after the other extends every series. *)
Lemma consume_exact (masses : list R) (states : list Vector.t) :
  Forall (fun m => 0 < m) masses ->
  Forall (fun v => length v = (6 * length masses)%nat) states ->
  forall (t : nat) (self : SOLARSimulator.sim) (e : SOLARSimulator.energy),
    length (SOLARSimulator.statedict self) = length masses ->
    SOLARSimulator.error self = Some e ->
    SOLARSimulator.ey e <> [] ->
    SOLARSimulator.consume masses states t self
    = Ok (SOLARSimulator.mk
            (SOLARSimulator.data self) (SOLARSimulator.duration self)
            (SOLARSimulator.step self)
            (Some (SOLARSimulator.mkEnergy
                     (SOLARSimulator.ex e
                      ++ map (fun j => (Z.of_nat j * SOLARSimulator.step self)%Z)
                             (seq t (length states)))
                     (SOLARSimulator.ey e ++ map (energy_of masses) states)
                     (SOLARSimulator.edy e
                      ++ deltas (last (SOLARSimulator.ey e) 0)
                                (map (energy_of masses) states))))
            (map (fun i => add_points states i
                             (nth i (SOLARSimulator.statedict self) no_track))
                 (seq 0 (length masses)))
            (SOLARSimulator.calls self
             ++ map SOLARSimulator.LoopCall (seq t (length states)))).
Proof.
  intros Hpos Hall. induction Hall as [|st states Hst _ IH];
    intros t self e Hsd He Hey.
  - cbn [SOLARSimulator.consume length seq map deltas]. rewrite !app_nil_r.
    destruct self as [d du stp er sd cs]. cbn in *. subst er.
    destruct e as [ex ey edy]. cbn. f_equal. f_equal.
    rewrite <- Hsd. unfold add_points. cbn [map].
    transitivity (map (fun i => nth i sd no_track) (seq 0 (length sd))).
    + apply map_seq_nth.
    + apply map_ext. intros i. destruct (nth i sd no_track).
      cbn. rewrite !app_nil_r. reflexivity.
  - cbn [SOLARSimulator.consume].
    rewrite (on_state_exact self e masses t st Hpos Hst Hsd He Hey).
    cbn [bind].
    erewrite IH; [| | reflexivity |].
    + cbn [SOLARSimulator.data SOLARSimulator.duration SOLARSimulator.step
           SOLARSimulator.ex SOLARSimulator.ey SOLARSimulator.edy
           SOLARSimulator.statedict SOLARSimulator.calls length seq map deltas].
      rewrite last_snoc_default, <- !app_assoc. cbn [app].
      f_equal. f_equal. apply map_ext_in. intros i Hi. apply in_seq in Hi.
      rewrite (nth_indep _ no_track (add_points [st] 0 (nth 0 (SOLARSimulator.statedict self) no_track)))
        by (rewrite length_map, length_seq; lia).
      rewrite (map_nth (fun i => add_points [st] i
                                   (nth i (SOLARSimulator.statedict self) no_track))
                       (seq 0 (length masses)) 0%nat i).
      rewrite seq_nth by lia. cbn [Nat.add]. apply add_points_app.
    + cbn [SOLARSimulator.statedict]. rewrite length_map, length_seq. reflexivity.
    + cbn [SOLARSimulator.ey]. intros H. apply app_eq_nil in H.
      destruct H as [_ H]. discriminate.
Qed.

(** The step count the driver asks for is the integer quotient of the
    duration by the step. *)
Lemma steps_quotient (duration step : Z) :
  (0 < step <= duration)%Z ->
  Py.int ((IZR (duration * 3600) - 0) / IZR (step * 3600)) = (duration / step)%Z.
Proof.
  intros Hs.
  assert (HS : 0 < IZR step) by (apply IZR_lt; lia).
  assert (HD : 0 < IZR duration) by (apply IZR_lt; lia).
  replace ((IZR (duration * 3600) - 0) / IZR (step * 3600))
    with (IZR duration / IZR step) by (rewrite !mult_IZR; field; lra).
  pose proof (Z.mul_div_le duration step ltac:(lia)) as Hlo.
  pose proof (Z.mul_succ_div_gt duration step ltac:(lia)) as Hhi.
  apply IZR_le in Hlo. apply IZR_lt in Hhi.
  rewrite mult_IZR in Hlo. rewrite mult_IZR, succ_IZR in Hhi.
  set (q := IZR (duration / step)) in *.
  assert (HX : IZR duration / IZR step * IZR step = IZR duration)
    by (field; lra).
  set (X := IZR duration / IZR step) in *.
  assert (Hq : X - 1 < q <= X) by (split; nra).
  unfold Py.int. destruct (Rle_dec 0 X) as [_|Hn].
  - symmetry. apply Int_part_spec. exact Hq.
  - exfalso. apply Hn. assert (0 <= q) by (apply IZR_le, Z.div_pos; lia). lra.
Qed.

(** The complete result of a run of the driver. *)
Lemma driver_run_exact (data : list Body) (duration step : Z)
  (cs : list SOLARSimulator.callback) :
  (forall x, In x data -> body_ok x) ->
  (0 < step <= duration)%Z ->
  length (driver_states data duration (duration / step))
  = (Z.to_nat (duration / step) + 1)%nat /\
  SOLARSimulator.run_simulation
    (SOLARSimulator.mk data duration step None [] cs)
  = Ok (SOLARSimulator.mk data duration step
          (Some (SOLARSimulator.mkEnergy
                   (0%Z :: map (fun j => (Z.of_nat j * step)%Z)
                               (seq 0 (length (driver_states data duration
                                                             (duration / step)))))
                   ((potential_energy data + kinetic_energy data)
                    :: map (energy_of (map mass data))
                           (driver_states data duration (duration / step)))
                   (0 :: deltas (potential_energy data + kinetic_energy data)
                                (map (energy_of (map mass data))
                                     (driver_states data duration
                                                    (duration / step))))))
          (map (fun i =>
                  add_points (driver_states data duration (duration / step)) i
                    (SOLARSimulator.mkTrack [] [] []
                       (name (nth i data no_body))))
               (seq 0 (length data)))
          (cs ++ map SOLARSimulator.LoopCall
                     (seq 0 (length (driver_states data duration
                                                   (duration / step))))
              ++ [SOLARSimulator.AfterCall])).
Proof.
  intros Hok Hs.
  assert (Hn : (1 <= duration / step)%Z).
  { apply Z.div_le_lower_bound; lia. }
  pose proof (system_masses_positive data Hok) as Hpos.
  pose proof (flat_state_length data Hok) as Hlen.
  assert (Hwf : well_formed
                  (ARK.tab (driver_integrator data duration (duration / step))) 4)
    by exact erk4_well_formed.
  assert (Hf : preserves_dim
                 (ARK.func (driver_integrator data duration (duration / step)))
                 (ARK.f_kwargs (driver_integrator data duration (duration / step)))
                 (length (ARK.y0 (driver_integrator data duration
                                                    (duration / step))))).
  { cbn [driver_integrator ARK.func ARK.f_kwargs ARK.y0].
    rewrite Hlen, <- (length_map mass data).
    apply n_body_kw_preserves. exact Hpos. }
  destruct (run_ok 4 (driver_integrator data duration (duration / step)))
    as (states & Hrun & Hcount & _); [cbn; lia | exact Hwf | exact Hf |].
  pose proof (run_dims 4 _ states None Hwf Hf Hrun) as Hdims.
  cbn [driver_integrator ARK.y0 ARK.n] in Hdims, Hcount.
  rewrite Hlen, <- (length_map mass data) in Hdims.
  assert (Hstates : driver_states data duration (duration / step) = states)
    by (unfold driver_states; rewrite Hrun; reflexivity).
  rewrite Hstates. split; [exact Hcount|].
  unfold SOLARSimulator.run_simulation.
  cbn [SOLARSimulator.data SOLARSimulator.duration SOLARSimulator.step
       SOLARSimulator.calls].
  unfold BodyM.flatten. rewrite (flatten_loop_ok data Hok). cbn [bind app].
  rewrite (hamiltonian_value data Hok). cbn [bind].
  rewrite (steps_quotient duration step Hs).
  rewrite init_ok; [|exact Hn|].
  2:{ apply Rlt_not_eq. apply IZR_lt. lia. }
  cbn [bind].
  change (ARK.set_func_kwargs _ (Some (map mass data)))
    with (driver_integrator data duration (duration / step)).
  rewrite Hrun.
  erewrite (consume_exact (map mass data) states Hpos Hdims);
    [| | reflexivity |].
  - cbn [bind SOLARSimulator.data SOLARSimulator.duration SOLARSimulator.step
         SOLARSimulator.error SOLARSimulator.statedict SOLARSimulator.calls
         SOLARSimulator.ex SOLARSimulator.ey SOLARSimulator.edy app last].
    rewrite length_map, <- app_assoc. f_equal. f_equal.
    apply map_ext_in. intros i Hi. apply in_seq in Hi. f_equal.
    rewrite (nth_indep _ no_track
               ((fun x => SOLARSimulator.mkTrack [] [] [] (name x)) no_body))
      by (rewrite length_map; lia).
    apply (map_nth (fun x => SOLARSimulator.mkTrack [] [] [] (name x))).
  - cbn [SOLARSimulator.statedict]. rewrite !length_map. reflexivity.
  - cbn [SOLARSimulator.ey]. discriminate.
Qed.

End DriverRecords.

(** ** Statements about the driver *)

Section DriverStatements.











(** [show_results] refuses to draw on a simulator that has not run; after
    a run it still refuses when the system holds no body, since the
    trajectories are then the empty dict it takes for "not run". *)
Theorem show_results_guard :
  forall (data : list Body) (duration step : Z),
    valid_system data ->
    (0 < step <= duration)%Z ->
    exists sim sim',
      SOLARSimulator.init data duration step = Ok sim /\
      results_missing sim = true /\
      SOLARSimulator.run_simulation sim = Ok sim' /\
      (results_missing sim' = true <-> data = []).
Proof.
  intros data duration step Hvalid Hs.
  destruct (driver_run_exact data duration step [] (proj1 Hvalid) Hs)
    as (_ & Hrun).
  eexists. eexists.
  split; [apply init_valid; [exact Hvalid | lia | exact Hs]|].
  split; [reflexivity|]. split; [exact Hrun|].
  unfold results_missing. cbn [SOLARSimulator.error SOLARSimulator.statedict orb].
  destruct data as [|x data]; cbn; split; intros H; congruence.
Qed.

Lemma show_results_guard_witness :
  exists sim sim',
    SOLARSimulator.init two_bodies 500 100 = Ok sim /\
    results_missing sim = true /\
    SOLARSimulator.run_simulation sim = Ok sim' /\
    (results_missing sim' = true <-> two_bodies = []).
Proof.
  apply (show_results_guard two_bodies 500 100).
  - exact two_bodies_valid.
  - lia.
Defined.

End DriverStatements.

(** ** Bodies to and from their dict form *)

Section BodyLikes.

Lemma map_nth_seq {X Y : Type} (g : X -> Y) (l : list X) (d : X) :
  map (fun i => g (nth i l d)) (seq 0 (length l)) = map g l.
Proof.
  rewrite <- (map_map (fun i => nth i l d) g), <- map_seq_nth. reflexivity.
Qed.

Lemma jsonify_keys (x : Body) : Presets.same_keys (Presets.jsonify x) = true.
Proof. reflexivity. Qed.

Lemma body_of_jsonify (id : nat) (x : Body) :
  body_ok x ->
  Presets.body_of id (Presets.jsonify x)
  = Ok (mkBody id (name x) (mass x) (position x) (velocity x)).
Proof.
  intros (Hm & Hp & Hv). unfold Presets.body_of, Presets.jsonify.
  cbn [Presets.lookup String.eqb Ascii.eqb Bool.eqb]. cbn.
  unfold BodyM.init. destruct (Rle_dec (mass x) 0); [lra|].
  rewrite Hp, Hv. reflexivity.
Qed.

(** Turning valid bodies into their dict form with [jsonify] and back with
    [convert_bodylikes] gives bodies with the same names, masses, positions
    and velocities, in the same order; a dict whose key set is not exactly
    name, velocity, position and mass makes the conversion of the whole
    collection raise [ValueError]. *)
Theorem jsonify_convert_round_trip :
  forall bodies : list Body,
    (forall x, In x bodies -> body_ok x) ->
    (exists converted,
       Presets.convert_bodylikes (map Presets.jsonify bodies) = Ok converted /\
       map name converted = map name bodies /\
       map physical converted = map physical bodies) /\
    (forall (data : list Presets.dict) (d : Presets.dict) (k : string),
       In d data ->
       (In k Presets.keys /\ ~ In k (Presets.dict_keys d)) \/
       (In k (Presets.dict_keys d) /\ ~ In k Presets.keys) ->
       Presets.convert_bodylikes data = Raise ValueError).
Proof.
  intros bodies Hok. split.
  - unfold Presets.convert_bodylikes.
    assert (Hkeys : forallb Presets.same_keys (map Presets.jsonify bodies) = true).
    { apply forallb_forall. intros d Hd. apply in_map_iff in Hd.
      destruct Hd as (x & <- & _). apply jsonify_keys. }
    rewrite Hkeys. cbn [negb].
    rewrite (enumerate_nth _ (Presets.jsonify no_body)), mapM_map, length_map.
    rewrite (mapM_pure _
               (fun i => mkBody i (name (nth i bodies no_body))
                           (mass (nth i bodies no_body))
                           (position (nth i bodies no_body))
                           (velocity (nth i bodies no_body)))).
    + eexists. split; [reflexivity|]. rewrite !map_map. split.
      * cbn [name]. apply (map_nth_seq name).
      * unfold physical. cbn [mass position velocity].
        apply (map_nth_seq (fun x => (mass x, position x, velocity x))).
    + intros i Hi. apply in_seq in Hi.
      rewrite (map_nth Presets.jsonify). apply body_of_jsonify.
      apply Hok, nth_In. lia.
  - intros data d k Hd Hk. unfold Presets.convert_bodylikes.
    assert (Hbad : Presets.same_keys d = false).
    { unfold Presets.same_keys. apply andb_false_iff.
      destruct Hk as [[Hin Hnot]|[Hin Hnot]].
      - left. apply not_true_iff_false. intros H.
        rewrite forallb_forall in H. specialize (H k Hin).
        unfold Presets.mem in H. apply existsb_exists in H.
        destruct H as (k' & Hk' & Heq). apply String.eqb_eq in Heq. subst k'.
        contradiction.
      - right. apply not_true_iff_false. intros H.
        rewrite forallb_forall in H. specialize (H k Hin).
        unfold Presets.mem in H. apply existsb_exists in H.
        destruct H as (k' & Hk' & Heq). apply String.eqb_eq in Heq. subst k'.
        contradiction. }
    assert (Hall : forallb Presets.same_keys data = false).
    { apply not_true_iff_false. intros H. rewrite forallb_forall in H.
      rewrite (H d Hd) in Hbad. discriminate. }
    rewrite Hall. reflexivity.
Qed.

Lemma jsonify_convert_round_trip_witness :
  (exists converted,
     Presets.convert_bodylikes (map Presets.jsonify two_bodies) = Ok converted /\
     map name converted = map name two_bodies /\
     map physical converted = map physical two_bodies) /\
  Presets.convert_bodylikes
    [ [("name"%string, Presets.Str "sun");
       ("position"%string, Presets.Seq [0; 0; 0]);
       ("velocity"%string, Presets.Seq [0; 0; 0])] ]
  = Raise ValueError.
Proof.
  destruct (jsonify_convert_round_trip two_bodies two_bodies_ok) as (H1 & H2).
  split; [exact H1|].
  apply (H2 _ [("name"%string, Presets.Str "sun");
               ("position"%string, Presets.Seq [0; 0; 0]);
               ("velocity"%string, Presets.Seq [0; 0; 0])] "mass"%string).
  - left. reflexivity.
  - left. split.
    + right. right. right. left. reflexivity.
    + cbn. intros [H|[H|[H|[]]]]; discriminate.
Defined.

End BodyLikes.

(** ** Sign of the gravitational energy *)

Section PotentialSign.

Lemma G_positive : 0 < Physic.G.
Proof.
  unfold Physic.G. apply Rdiv_lt_0_compat; [lra|]. apply pow_lt. lra.
Qed.

(** The gravitational energy of bodies placed at pairwise distinct
    positions is never positive. *)
Theorem gravitational_energy_not_positive :
  forall particles : list Body,
    (forall x, In x particles -> body_ok x) ->
    apart particles ->
    exists U, Physic.get_gravitational_energy particles = Ok U /\ U <= 0.
Proof.
  intros particles Hok Hapart. exists (potential_energy particles).
  split; [apply gravitational_ok; exact Hok|].
  unfold potential_energy.
  assert (H : 0 <= big_sum (fun i =>
                 big_sum (fun j =>
                    if (i <? j)%nat
                    then Physic.G * mass (nth i particles no_body)
                                  * mass (nth j particles no_body)
                         / norm2 (Vector.zip_with Rminus
                                    (position (nth i particles no_body))
                                    (position (nth j particles no_body)))
                    else 0)
                   (seq 0 (length particles)))
               (seq 0 (length particles))); [|lra].
  apply big_sum_nonneg. intros i Hi. apply in_seq in Hi.
  apply big_sum_nonneg. intros j Hj. apply in_seq in Hj.
  destruct (Nat.ltb_spec i j) as [Hij|_]; [|lra].
  destruct (Hok (nth i particles no_body)) as (Hmi & Hpi & _); [apply nth_In; lia|].
  destruct (Hok (nth j particles no_body)) as (Hmj & Hpj & _); [apply nth_In; lia|].
  pose proof G_positive as HG.
  assert (Hd : 0 < norm2 (Vector.zip_with Rminus
                            (position (nth i particles no_body))
                            (position (nth j particles no_body)))).
  { unfold norm2. apply sqrt_lt_R0.
    pose proof (squares_nonneg (Vector.zip_with Rminus
                                  (position (nth i particles no_body))
                                  (position (nth j particles no_body)))) as Hs.
    destruct Hs as [Hs|Hs]; [exact Hs|]. exfalso.
    apply (Hapart j i (nth j particles no_body) (nth i particles no_body));
      [lia | apply nth_error_nth'; lia | apply nth_error_nth'; lia |].
    apply zip_minus_zero; [congruence|]. apply squares_zero. symmetry. exact Hs. }
  left. apply Rdiv_lt_0_compat; [|exact Hd].
  apply Rmult_lt_0_compat; [|exact Hmj]. apply Rmult_lt_0_compat; assumption.
Qed.

Lemma gravitational_energy_not_positive_witness :
  exists U, Physic.get_gravitational_energy two_bodies = Ok U /\ U <= 0.
Proof.
  apply (gravitational_energy_not_positive two_bodies).
  - exact two_bodies_ok.
  - exact two_bodies_distinct.
Defined.

End PotentialSign.
